(** * Merging fragment databases

    A shallow embedding of [mmpdblib/cli/fragdb_merge.py]: the three
    [INSERT ... SELECT] statements of [fragdb_merge_sql], the helpers
    [open_output_fragdb] and [check_options_mismatch], and the command
    [fragdb_merge] itself, followed by the properties of the merge.

    Python's control flow (exceptions, [try]/[except], [try]/[finally],
    [for]) is kept as a state-and-exception monad over the local
    variables of [fragdb_merge]; SQL tables are lists of rows in rowid
    order and a query is a list comprehension over its tables.  No
    query of the file has an [ORDER BY]: the rows of the duplicate
    check come in an order that is left to the database engine, and the
    rows an [INSERT ... SELECT] copies are numbered in the order of the
    scan.

    What the file only calls is modelled from the specification, and
    marked so, or left open as a parameter: the uniqueness the table
    definitions put on the title columns ([index_ddl]) and Python's
    [repr].  What the file system and sqlite3 decide (which paths hold
    a fragment database, what [open_fragdb] raises for the others,
    whether a database can be created or attached, the order of the
    rows of a query) is part of the [world] a run takes place in.  The
    properties are stated for runs whose output path is not one of the
    input paths. *)

From Stdlib Require Import ZArith DecimalString.
From stdpp Require Import base strings list gmap sorting.

Local Open Scope string_scope.
Local Open Scope list_scope.

(** ** Python: exceptions and a monad for statements *)

Inductive exn :=
  | SystemExit (lines : list string)      (* raised by [die] *)
  | ValueError (msg : string)
  | OperationalError (msg : string)       (* sqlite3.OperationalError *)
  | IntegrityError (msg : string)         (* sqlite3.IntegrityError *)
  | KeyError (key : string)
  | DatabaseError (msg : string)          (* sqlite3.DatabaseError *)
  | FileNotFoundError (path : string)
  | IsADirectoryError (path : string)
  | AttributeError (msg : string)
  | AssertionError (msg : string).

(** A statement runs on a state [S] and either returns or raises; the
    state survives an exception, which is what [finally] blocks see. *)
Definition py (S A : Type) : Type := S → S * (exn + A).

Definition ret {S A} (a : A) : py S A := λ s, (s, inr a).

Definition raise {S A} (e : exn) : py S A := λ s, (s, inl e).

Definition bind {S A B} (m : py S A) (k : A → py S B) : py S B :=
  λ s, match m s with
       | (s', inr a) => k a s'
       | (s', inl e) => (s', inl e)
       end.

Global Instance py_ret {S} : MRet (py S) := λ A, ret.
Global Instance py_bind {S} : MBind (py S) := λ A B k m, bind m k.

Definition get {S A} (proj : S → A) : py S A := λ s, (s, inr (proj s)).

Definition modify {S} (f : S → S) : py S unit := λ s, (f s, inr tt).

(** [try: m  except E as err: h err]; the handler is chosen by [h],
    which answers [None] for the exceptions the clause does not list. *)
Definition try_except {S A} (m : py S A) (h : exn → option (py S A)) : py S A :=
  λ s, match m s with
       | (s', inl e) => match h e with
                        | Some k => k s'
                        | None => (s', inl e)
                        end
       | r => r
       end.

(** [try: m  finally: fin]; an exception of [fin] replaces that of [m]. *)
Definition try_finally {S A} (m : py S A) (fin : py S unit) : py S A :=
  λ s, let '(s1, r) := m s in
       match fin s1 with
       | (s2, inl e) => (s2, inl e)
       | (s2, inr _) => (s2, r)
       end.

Fixpoint for_each {S A} (l : list A) (body : A → py S unit) : py S unit :=
  match l with
  | [] => ret tt
  | x :: l' => body x ;; for_each l' body
  end.

(** A call of a function that does not touch the state. *)
Definition call {S A} (r : exn + A) : py S A := λ s, (s, r).

(** Modelled from the spec: [click_utils.die], which ends the run with a
    non-zero exit and a diagnostic of one or more lines. *)
Definition die {S A} (lines : list string) : py S A := raise (SystemExit lines).

(** Values of option fields, and [str] of an integer. *)
Inductive pyval :=
  | PyNone
  | PyInt (z : Z)
  | PyStr (s : string).

Global Instance pyval_eq_dec : EqDecision pyval.
Proof. solve_decision. Defined.

Definition str_of_nat (n : nat) : string := NilEmpty.string_of_uint (Nat.to_uint n).

(** ** Dictionaries, as [to_dict] returns them: keys in insertion order *)

Definition dict := list (string * pyval).

Fixpoint dict_get (k : string) (d : dict) : option pyval :=
  match d with
  | [] => None
  | (k', v) :: d' => if decide (k' = k) then Some v else dict_get k d'
  end.

Definition dict_keys (d : dict) : list string := d.*1.

(** [d == first_d]: the same number of keys, and every key of [d] bound
    to an equal value in [first_d]. *)
Definition dict_eqb (d first_d : dict) : bool :=
  bool_decide (length d = length first_d) &&
  forallb (λ k, bool_decide (dict_get k d = dict_get k first_d)) (dict_keys d).

(** ** SQL: values, rows and tables *)

Inductive sqlval :=
  | SqlNull
  | SqlInt (z : Z)
  | SqlText (s : string).

Global Instance sqlval_eq_dec : EqDecision sqlval.
Proof. solve_decision. Defined.

(** A row is its integer primary key and the remaining columns. *)
Record row (A : Type) := Row { id : Z; cols : A }.
Arguments Row {A} _ _.
Arguments id {A} _.
Arguments cols {A} _.

Abbreviation table A := (list (row A)).

Record error_record_cols := ErrorRecord {
  er_title : string;
  er_input_smiles : sqlval;
  er_errmsg : sqlval }.

Record record_cols := Record_ {
  title : string;
  input_smiles : sqlval;
  num_normalized_heavies : sqlval;
  normalized_smiles : sqlval }.

(** The ten columns of a fragmentation that are copied as they are. *)
Record fragmentation_attrs := FragmentationAttrs {
  num_cuts : sqlval;
  enumeration_label : sqlval;
  variable_num_heavies : sqlval;
  variable_symmetry_class : sqlval;
  variable_smiles : sqlval;
  attachment_order : sqlval;
  constant_num_heavies : sqlval;
  constant_symmetry_class : sqlval;
  constant_smiles : sqlval;
  constant_with_H_smiles : sqlval }.

Record fragmentation_cols := Fragmentation {
  record_id : Z;
  attrs : fragmentation_attrs }.

Global Instance error_record_cols_eq_dec : EqDecision error_record_cols.
Proof. solve_decision. Defined.
Global Instance record_cols_eq_dec : EqDecision record_cols.
Proof. solve_decision. Defined.
Global Instance fragmentation_attrs_eq_dec : EqDecision fragmentation_attrs.
Proof. solve_decision. Defined.
Global Instance fragmentation_cols_eq_dec : EqDecision fragmentation_cols.
Proof. solve_decision. Defined.

(** Modelled from the spec: the configuration options of a database, a
    set of named settings, seen through their [to_dict]. *)
Record FragmentOptions := Options { to_dict : dict }.

Record fragdb := Fragdb_ {
  options : FragmentOptions;
  error_record : table error_record_cols;
  record : table record_cols;
  fragmentation : table fragmentation_cols }.

(** The rowid SQLite gives to a row inserted without one: 1 in an empty
    table, otherwise one more than the largest rowid in use. *)
Definition next_rowid {A} (t : table A) : Z :=
  match id <$> t with
  | [] => 1
  | i :: ids => 1 + foldr Z.max i ids
  end%Z.

Definition insert_row {A} (t : table A) (v : A) : table A :=
  t ++ [Row (next_rowid t) v].

(** [INSERT INTO t (columns) SELECT ...]: the selected rows are appended
    one after the other. *)
Definition insert_rows {A} (t : table A) (vs : list A) : table A :=
  foldl insert_row t vs.

(** Which title columns the output tables hold unique.  The table and
    index definitions are those of [fragment_db.init_fragdb] and
    [fragment_db.get_fragment_create_index_sql], which [fragdb_merge.py]
    only calls; both flags are a parameter of the model, and
    [get_fragment_create_index_sql] below gives them as the
    specification describes them.  An [INSERT] that would break a
    uniqueness that is declared raises [sqlite3.IntegrityError] and
    inserts nothing. *)
Record index_ddl := IndexDdl {
  record_title_unique : bool;
  error_record_title_unique : bool }.

(** Modelled from the spec: [fragment_db.get_fragment_create_index_sql],
    the index definitions that [open_output_fragdb] runs on the new
    database: the title is the unique key of the records, and the title
    of an error record must be unique too. *)
Definition get_fragment_create_index_sql : index_ddl := IndexDdl true true.

Definition unique_ok (enforced : bool) (keys : list string) : bool :=
  negb enforced || bool_decide (NoDup keys).

Definition record_titles (db : fragdb) : list string := (title ∘ cols) <$> record db.

Definition error_record_titles (db : fragdb) : list string :=
  (er_title ∘ cols) <$> error_record db.

(** ** Files, the output connection and the local variables *)

Inductive file :=
  | Fragdb (db : fragdb)     (* a fragment database *)
  | NotFragdb                (* a file [open_fragdb] rejects *)
  | Directory.

(** The file system, with what the run cannot decide by itself: the
    exception that [fragment_db.open_fragdb] raises for a path that
    holds no fragment database (a [ValueError] for a database of another
    format; something else for a missing path or a file that is no
    database), whether sqlite3 refuses to create or to attach a database
    there (and with which message), and the order in which sqlite3
    yields the rows of a [SELECT] that has no [ORDER BY]. *)
Record world := World {
  files : gmap string file;
  open_fragdb_error : string → exn;
  connect_error : string → option string;
  attach_error : string → option string;
  select_order : list string → list string }.

Definition set_files (w : world) (fs : gmap string file) : world :=
  World fs (open_fragdb_error w) (connect_error w) (attach_error w) (select_order w).

(** The connection [output_db] with its cursor [output_c]: the path it
    was opened on, the main database as its statements see it, and the
    database attached as [old].  What is committed is what the file at
    [path] holds. *)
Record connection := Connection {
  path : string;
  main : fragdb;
  old : option fragdb }.

Definition set_main (c : connection) (db : fragdb) : connection :=
  Connection (path c) db (old c).

Definition set_old (c : connection) (o : option fragdb) : connection :=
  Connection (path c) (main c) o.

Definition set_error_record (db : fragdb) (t : table error_record_cols) : fragdb :=
  Fragdb_ (options db) t (record db) (fragmentation db).

Definition set_record (db : fragdb) (t : table record_cols) : fragdb :=
  Fragdb_ (options db) (error_record db) t (fragmentation db).

Definition set_fragmentation (db : fragdb) (t : table fragmentation_cols) : fragdb :=
  Fragdb_ (options db) (error_record db) (record db) t.

(** The local variables of [fragdb_merge], the file system and the
    messages given to [reporter.report]. *)
Record frame := Frame {
  first : option (string * FragmentOptions);   (* first_filename, first_options *)
  output_c : option connection;                (* output_db, output_c *)
  num : option (nat * nat);                    (* num_records, num_error_records *)
  env : world;
  reported : list string }.

Definition set_first (v : option (string * FragmentOptions)) (f : frame) : frame :=
  Frame v (output_c f) (num f) (env f) (reported f).

Definition set_output_c (v : option connection) (f : frame) : frame :=
  Frame (first f) v (num f) (env f) (reported f).

Definition set_num (v : option (nat * nat)) (f : frame) : frame :=
  Frame (first f) (output_c f) v (env f) (reported f).

Definition set_env (w : world) (f : frame) : frame :=
  Frame (first f) (output_c f) (num f) w (reported f).

(** Modelled from the spec: [reporter.report], which gives a message to
    the user. *)
Definition report (msg : string) : py frame unit :=
  modify (λ f, Frame (first f) (output_c f) (num f) (env f) (reported f ++ [msg])).

Definition initial_frame (w : world) : frame := Frame None None None w [].

(** [output_c.execute(stmt)] for a statement that changes the connection,
    and for a query whose rows are read back. *)
Definition execute (stmt : connection → exn + connection) : py frame unit :=
  λ f, match output_c f with
       | None => (f, inl (AttributeError "'NoneType' object has no attribute 'execute'"))
       | Some c => match stmt c with
                   | inl e => (f, inl e)
                   | inr c' => (set_output_c (Some c') f, inr tt)
                   end
       end.

Definition fetch {A} (query : connection → exn + A) : py frame A :=
  λ f, match output_c f with
       | None => (f, inl (AttributeError "'NoneType' object has no attribute 'execute'"))
       | Some c => match query c with
                   | inl e => (f, inl e)
                   | inr a => (f, inr a)
                   end
       end.

(** [COMMIT] makes the file hold what the connection sees; [BEGIN
    TRANSACTION] changes no table. *)
Definition sql_commit : py frame unit :=
  λ f, match output_c f with
       | None => (f, inl (AttributeError "'NoneType' object has no attribute 'execute'"))
       | Some c =>
           (set_env (set_files (env f) (<[path c := Fragdb (main c)]> (files (env f)))) f,
            inr tt)
       end.

Definition sql_begin_transaction : py frame unit := execute inr.

Definition sql_detach_old : py frame unit := execute (λ c, inr (set_old c None)).

(** [ATTACH DATABASE ? AS old]. *)
Definition sql_attach_old (filename : string) : py frame unit :=
  λ f, match attach_error (env f) filename with
       | Some err => (f, inl (OperationalError err))
       | None =>
           match files (env f) !! filename with
           | Some (Fragdb db) => execute (λ c, inr (set_old c (Some db))) f
           | _ => (f, inl (OperationalError "file is not a database"))
           end
       end.

Definition sql_count_record (c : connection) : exn + nat :=
  inr (length (record (main c))).

Definition sql_count_error_record (c : connection) : exn + nat :=
  inr (length (error_record (main c))).

(** The rows of the query of the duplicate check of [fragdb_merge],
    [SELECT old_record.title FROM old.record as old_record, record as new_record
      WHERE old_record.title = new_record.title]:
    one row for each pair of records with the same title. *)
Definition duplicate_titles (old_records new_records : table record_cols) : list string :=
  old_records ≫= λ old_record,
  new_records ≫= λ new_record,
  if bool_decide (title (cols old_record) = title (cols new_record))
  then [title (cols old_record)] else [].

(** The query has no [ORDER BY]: the cursor yields its rows in the order
    the engine chooses, which is some permutation of them. *)
Definition in_order (order : list string → list string) (rows : list string) : list string :=
  let rows' := order rows in
  if decide (rows' ≡ₚ rows) then rows' else rows.

Definition select_duplicate_titles (order : list string → list string) (c : connection)
    : exn + list string :=
  match old c with
  | None => inl (OperationalError "no such table: old.record")
  | Some old_db => inr (in_order order (duplicate_titles (record old_db) (record (main c))))
  end.

(** The [SELECT] of step 3 of [fragdb_merge_sql].  It has no [ORDER BY]
    either; sqlite3 scans [old.fragmentation] and looks the two records
    up by identifier and by title, so the rows come in the order of
    [old.fragmentation].  The order only decides which identifier each
    new fragmentation row receives. *)
Definition select_fragmentation (new_records old_records : table record_cols)
    (old_fragmentations : table fragmentation_cols) : list fragmentation_cols :=
  old_fragmentations ≫= λ old_fragmentation,
  old_records ≫= λ old_record,
  new_records ≫= λ new_record,
  if bool_decide (title (cols old_record) = title (cols new_record)) &&
     bool_decide (record_id (cols old_fragmentation) = id old_record)
  then [Fragmentation (id new_record) (attrs (cols old_fragmentation))]
  else [].

(** Modelled from the spec: [fragment_db.init_fragdb], which creates the
    tables of a fresh database and stores the options in it; the three
    row tables start empty. *)
Definition init_fragdb (opts : FragmentOptions) : fragdb := Fragdb_ opts [] [] [].

(** ** The program *)

Section fragdb_merge.

(** The uniqueness the output tables were created with, and Python's
    [repr], which the messages apply to file names, titles and option
    values. *)
Variable ddl : index_ddl.
Variable repr : pyval → string.

(** *** [fragdb_merge_sql] *)

(** Step 1: [INSERT INTO error_record (title, input_smiles, errmsg)
    SELECT title, input_smiles, errmsg FROM old.error_record]. *)
Definition copy_error_record (c : connection) : exn + connection :=
  match old c with
  | None => inl (OperationalError "no such table: old.error_record")
  | Some old_db =>
      let t := insert_rows (error_record (main c)) (cols <$> error_record old_db) in
      if unique_ok (error_record_title_unique ddl) ((er_title ∘ cols) <$> t)
      then inr (set_main c (set_error_record (main c) t))
      else inl (IntegrityError "UNIQUE constraint failed: error_record.title")
  end.

(** Step 2: [INSERT INTO record (title, input_smiles, num_normalized_heavies,
    normalized_smiles) SELECT ... FROM old.record]. *)
Definition copy_record (c : connection) : exn + connection :=
  match old c with
  | None => inl (OperationalError "no such table: old.record")
  | Some old_db =>
      let t := insert_rows (record (main c)) (cols <$> record old_db) in
      if unique_ok (record_title_unique ddl) ((title ∘ cols) <$> t)
      then inr (set_main c (set_record (main c) t))
      else inl (IntegrityError "UNIQUE constraint failed: record.title")
  end.

(** Step 3: [INSERT INTO fragmentation (record_id, ...) SELECT new_record.id, ...
    FROM record as new_record, old.record as old_record,
         old.fragmentation as old_fragmentation
    WHERE old_record.title = new_record.title
      AND old_fragmentation.record_id = old_record.id]. *)
Definition copy_fragmentation (c : connection) : exn + connection :=
  match old c with
  | None => inl (OperationalError "no such table: old.record")
  | Some old_db =>
      let rows := select_fragmentation (record (main c)) (record old_db)
                                       (fragmentation old_db) in
      inr (set_main c (set_fragmentation (main c)
                         (insert_rows (fragmentation (main c)) rows)))
  end.

Definition fragdb_merge_sql : list (connection → exn + connection) :=
  [copy_error_record; copy_record; copy_fragmentation].

(** Modelled from the spec: [schema._execute_sql], the raw-statement
    execution primitive, runs the statements of a script in order. *)
Definition _execute_sql (script : list (connection → exn + connection)) : py frame unit :=
  for_each script execute.

(** *** [open_output_fragdb] *)

Definition os_unlink (filename : string) : py frame unit :=
  λ f, match files (env f) !! filename with
       | None => (f, inl (FileNotFoundError filename))
       | Some Directory => (f, inl (IsADirectoryError filename))
       | Some _ => (set_env (set_files (env f) (delete filename (files (env f)))) f, inr tt)
       end.

(** Modelled from the spec: [sqlite3.connect] followed by
    [fragment_db.init_fragdb] and the index DDL, the schema-initialization
    primitive that creates the tables and indexes of a fresh database
    holding the given options.  On a path that already holds a file the
    tables cannot be created. *)
Definition create_fragdb (filename : string) (opts : FragmentOptions) : py frame connection :=
  λ f, match connect_error (env f) filename with
       | Some err => (f, inl (OperationalError err))
       | None =>
           match files (env f) !! filename with
           | None =>
               (set_env (set_files (env f)
                           (<[filename := Fragdb (init_fragdb opts)]> (files (env f)))) f,
                inr (Connection filename (init_fragdb opts) None))
           | Some _ => (f, inl (OperationalError "unable to create the tables"))
           end
       end.

Definition open_output_fragdb (filename : string) (opts : FragmentOptions)
    : py frame connection :=
  (* Remove any existing file. *)
  try_except (os_unlink filename)
    (λ e, match e with FileNotFoundError _ => Some (ret tt) | _ => None end) ;;
  create_fragdb filename opts.

(** *** [check_options_mismatch] *)

(** The loop [for k in d: if d[k] != first_d[k]: lines.append(...)]. *)
Fixpoint mismatch_lines (ks : list string) (d first_d : dict) : exn + list string :=
  match ks with
  | [] => inr []
  | k :: ks' =>
      match dict_get k d, dict_get k first_d with
      | Some v, Some first_v =>
          match mismatch_lines ks' d first_d with
          | inl e => inl e
          | inr lines =>
              inr (if decide (v ≠ first_v)
                   then ("  " +:+ k +:+ ": " +:+ repr v +:+ " != " +:+ repr first_v) :: lines
                   else lines)
          end
      | _, _ => inl (KeyError k)
      end
  end.

Definition check_options_mismatch (filename : string) (opts : FragmentOptions)
    (first_filename : string) (first_options : FragmentOptions) : exn + unit :=
  let d := to_dict opts in
  let first_d := to_dict first_options in
  if dict_eqb d first_d then inr ()
  else
    (* Figure out which values are different *)
    match mismatch_lines (dict_keys d) d first_d with
    | inl e => inl e
    | inr lines =>
        inl (SystemExit (("Cannot merge. The options in " +:+ repr (PyStr filename) +:+
                          " differ from " +:+ repr (PyStr first_filename) +:+ ".") :: lines))
    end.

(** *** [fragdb_merge] *)

(** Modelled from the spec: [fragment_db.open_fragdb], the database-open
    primitive that validates the file format and exposes the stored
    options, failing with a typed error otherwise: the exception the
    file system gives for the path. *)
Definition open_fragdb (filename : string) : py frame fragdb :=
  λ f, match files (env f) !! filename with
       | Some (Fragdb db) => (f, inr db)
       | _ => (f, inl (open_fragdb_error (env f) filename))
       end.

(** The body of [for filename in filenames]. *)
Definition merge_file (output_filename filename : string) : py frame unit :=
  (* Ensure it's a valid SQLite database *)
  old_db ← try_except (open_fragdb filename)
             (λ e, match e with ValueError err => Some (die [err]) | _ => None end);
  let old_options := options old_db in
  fst_ ← get first;
  match fst_ with
  | None =>
      modify (set_first (Some (filename, old_options))) ;;
      try_except
        (c ← open_output_fragdb output_filename old_options;
         modify (set_output_c (Some c)))
        (λ e, match e with
              | OperationalError err =>
                  Some (die ["Error trying to open " +:+ repr (PyStr output_filename) +:+
                             " for writing: " +:+ err])
              | _ => None
              end)
  | Some (first_filename, first_options) =>
      call (check_options_mismatch filename old_options first_filename first_options)
  end ;;
  try_except (sql_attach_old filename)
    (λ e, match e with
          | OperationalError err =>
              Some (die ["Cannot attach " +:+ repr (PyStr filename) +:+
                         " using sqlite3: " +:+ err])
          | _ => None
          end) ;;
  try_finally
    ((* Check for any duplicate record ids *)
     order ← get (select_order ∘ env);
     titles ← fetch (select_duplicate_titles order);
     for_each titles (λ title,
       die ["Cannot merge " +:+ repr (PyStr filename) +:+ ": Duplicate record id " +:+
              repr (PyStr title) +:+ ".";
            "  (Use 'fragdb_merge' to merge fragdb files from fragmenting different SMILES files,";
            "   not to merge the fragdb files generated by 'fragdb_split'.)"]) ;;
     (* We're free to merge! *)
     _execute_sql fragdb_merge_sql)
    (sql_commit ;; sql_detach_old ;; sql_begin_transaction).

(** The outer [finally], for an output that was opened: commit and count.
    Closing the cursor and the connection changes nothing that was
    committed. *)
Definition gather_counts : py frame unit :=
  c ← get output_c;
  match c with
  | Some _ =>
      sql_commit ;;
      num_records ← fetch sql_count_record;
      num_error_records ← fetch sql_count_error_record;
      modify (set_num (Some (num_records, num_error_records)))
  | None => ret tt
  end.

Definition fragdb_merge (filenames : list string) (output_filename : option string)
    : py frame unit :=
  (if bool_decide (filenames = [])
   then raise (AssertionError "should have been handled by click")
   else ret tt) ;;
  output_filename ←
    match output_filename with
    | None =>
        report ("No --output file name specified. Using " +:+
                repr (PyStr "merged.fragdb") +:+ ".") ;;
        ret "merged.fragdb"
    | Some name => ret name
    end;
  try_finally (for_each filenames (merge_file output_filename)) gather_counts ;;
  n ← get num;
  match n with
  | Some (num_records, num_error_records) =>
      report ("Merge complete. " +:+
              "#files: " +:+ str_of_nat (length filenames) +:+ " " +:+
              "#records: " +:+ str_of_nat num_records +:+ " " +:+
              "#error records: " +:+ str_of_nat num_error_records)
  | None => ret tt
  end.

(** A run of the command in a world. *)
Definition run (w : world) (filenames : list string) (output_filename : option string)
    : frame * (exn + unit) :=
  fragdb_merge filenames output_filename (initial_frame w).

End fragdb_merge.

(** ** Views of a database used to state the properties *)

(** The fragmentations among [fs] that belong to the record [r], each
    with the title of [r] in place of the numeric reference. *)
Definition owned (r : row record_cols) (fs : list fragmentation_cols)
    : list (string * fragmentation_attrs) :=
  fs ≫= λ f, if decide (record_id f = id r) then [(title (cols r), attrs f)] else [].

(** [SELECT record.title, fragmentation.(attributes) FROM record, fragmentation
     WHERE fragmentation.record_id = record.id]: the fragmentation table
    with the stable key of the parent instead of its row identifier. *)
Definition titled_fragmentations (db : fragdb) : list (string * fragmentation_attrs) :=
  record db ≫= λ r, owned r (cols <$> fragmentation db).

Definition fragmentations_of (db : fragdb) (t : string) : list fragmentation_attrs :=
  (filter (λ p, p.1 = t) (titled_fragmentations db)).*2.

(** Primary keys are unique and every fragmentation refers to a record. *)
Definition well_keyed (db : fragdb) : Prop :=
  NoDup (id <$> record db) ∧
  ∀ f, f ∈ fragmentation db → record_id (cols f) ∈ id <$> record db.

(** A valid input: well keyed, record titles unique, and the title
    columns satisfy what the index DDL declares unique. *)
Definition valid_fragdb (ddl : index_ddl) (db : fragdb) : bool :=
  bool_decide (NoDup (id <$> record db)) &&
  forallb (λ f, bool_decide (record_id (cols f) ∈ id <$> record db)) (fragmentation db) &&
  bool_decide (NoDup (record_titles db)) &&
  unique_ok (error_record_title_unique ddl) (error_record_titles db).

(** The identifier the record with identifier [i] in [olds] has in
    [news], the same records in the same order under new identifiers. *)
Definition renumber (olds news : table record_cols) (i : Z) : Z :=
  match list_find (λ r, id r = i) olds with
  | Some (j, _) => default i (id <$> news !! j)
  | None => i
  end.

(** What the three statements of [fragdb_merge_sql] make of the output
    [out] when [old_db] is attached and no constraint fails. *)
Definition merged (out old_db : fragdb) : fragdb :=
  let records := insert_rows (record out) (cols <$> record old_db) in
  Fragdb_ (options out)
    (insert_rows (error_record out) (cols <$> error_record old_db))
    records
    (insert_rows (fragmentation out)
       (select_fragmentation records (record old_db) (fragmentation old_db))).

Definition merge_all (opts : FragmentOptions) (dbs : list fragdb) : fragdb :=
  foldl merged (init_fragdb opts) dbs.

(** [out'] holds the rows of [out], in place, and possibly more. *)
Definition grows (out out' : fragdb) : Prop :=
  options out' = options out ∧
  error_record out `prefix_of` error_record out' ∧
  record out `prefix_of` record out' ∧
  fragmentation out `prefix_of` fragmentation out'.

(** The path the run writes to. *)
Definition output_path (output_filename : option string) : string :=
  default "merged.fragdb" output_filename.

(** The fragment databases found at the given paths. *)
Definition inputs_at (w : world) (filenames : list string) (dbs : list fragdb) : Prop :=
  Forall2 (λ fn db, files w !! fn = Some (Fragdb db)) filenames dbs.

(** The fragmentation [a] belonged, in one of the inputs, to a record
    titled [t]. *)
Definition originates (dbs : list fragdb) (t : string) (a : fragmentation_attrs) : Prop :=
  ∃ db r f, db ∈ dbs ∧ r ∈ record db ∧ f ∈ fragmentation db ∧
            record_id (cols f) = id r ∧ title (cols r) = t ∧ attrs (cols f) = a.

(** The frame between two files: the output connection holds [db], all of
    it committed, and nothing is attached. *)
Definition resting (out : string) (db : fragdb) (f : frame) : frame :=
  Frame (first f) (Some (Connection out db None)) (num f)
        (set_files (env f) (<[out := Fragdb db]> (files (env f)))) (reported f).

Section outcomes.
Variable ddl : index_ddl.
Variable repr : pyval → string.

(** The last two statements of the loop body: the [ATTACH] and the
    [try]/[finally] around the duplicate check and the copy. *)
Definition attach_and_copy (filename : string) : py frame unit :=
  try_except (sql_attach_old filename)
    (λ e, match e with
          | OperationalError err =>
              Some (die ["Cannot attach " +:+ repr (PyStr filename) +:+
                         " using sqlite3: " +:+ err])
          | _ => None
          end) ;;
  try_finally
    (order ← get (select_order ∘ env);
     titles ← fetch (select_duplicate_titles order);
     for_each titles (λ title,
       die ["Cannot merge " +:+ repr (PyStr filename) +:+ ": Duplicate record id " +:+
              repr (PyStr title) +:+ ".";
            "  (Use 'fragdb_merge' to merge fragdb files from fragmenting different SMILES files,";
            "   not to merge the fragdb files generated by 'fragdb_split'.)"]) ;;
     _execute_sql (fragdb_merge_sql ddl))
    (sql_commit ;; sql_detach_old ;; sql_begin_transaction).

(** What these statements make of the output database [out] when the
    attached file holds [old_db]: the content committed when they end,
    and how they end. *)
Definition copy_outcome (filename : string) (attach_err : option string)
    (order : list string → list string) (out old_db : fragdb) : fragdb * (exn + unit) :=
  match attach_err with
  | Some err =>
      (out, inl (SystemExit ["Cannot attach " +:+ repr (PyStr filename) +:+
                             " using sqlite3: " +:+ err]))
  | None =>
      match in_order order (duplicate_titles (record old_db) (record out)) with
      | title :: _ =>
          (out, inl (SystemExit
             ["Cannot merge " +:+ repr (PyStr filename) +:+ ": Duplicate record id " +:+
                repr (PyStr title) +:+ ".";
              "  (Use 'fragdb_merge' to merge fragdb files from fragmenting different SMILES files,";
              "   not to merge the fragdb files generated by 'fragdb_split'.)"]))
      | [] =>
          let errors := insert_rows (error_record out) (cols <$> error_record old_db) in
          if unique_ok (error_record_title_unique ddl) ((er_title ∘ cols) <$> errors) then
            let records := insert_rows (record out) (cols <$> record old_db) in
            if unique_ok (record_title_unique ddl) ((title ∘ cols) <$> records)
            then (merged out old_db, inr ())
            else (set_error_record out errors,
                  inl (IntegrityError "UNIQUE constraint failed: record.title"))
          else (out, inl (IntegrityError "UNIQUE constraint failed: error_record.title"))
      end
  end.

(** What the handler around [open_fragdb] makes of its exception: [die]
    with the text of a [ValueError], and any other exception as it is. *)
Definition open_failure (e : exn) : exn :=
  match e with
  | ValueError err => SystemExit [err]
  | _ => e
  end.

(** What the whole loop body makes of the output database [out] once the
    first file has fixed the reference options. *)
Definition file_outcome (w : world) (first_filename : string) (first_options : FragmentOptions)
    (filename : string) (out : fragdb) : fragdb * (exn + unit) :=
  match files w !! filename with
  | Some (Fragdb old_db) =>
      match check_options_mismatch repr filename (options old_db)
              first_filename first_options with
      | inl e => (out, inl e)
      | inr _ =>
          copy_outcome filename (attach_error w filename) (select_order w) out old_db
      end
  | _ => (out, inl (open_failure (open_fragdb_error w filename)))
  end.

Fixpoint files_outcome (w : world) (first_filename : string) (first_options : FragmentOptions)
    (filenames : list string) (out : fragdb) : fragdb * (exn + unit) :=
  match filenames with
  | [] => (out, inr ())
  | filename :: filenames' =>
      match file_outcome w first_filename first_options filename out with
      | (out', inr _) => files_outcome w first_filename first_options filenames' out'
      | (out', inl e) => (out', inl e)
      end
  end.

(** The report of a run that ends well. *)
Definition merge_complete (n : nat) (db : fragdb) : string :=
  "Merge complete. " +:+
  "#files: " +:+ str_of_nat n +:+ " " +:+
  "#records: " +:+ str_of_nat (length (record db)) +:+ " " +:+
  "#error records: " +:+ str_of_nat (length (error_record db)).

Definition notice (output_filename : option string) : list string :=
  match output_filename with
  | None => ["No --output file name specified. Using " +:+
             repr (PyStr "merged.fragdb") +:+ "."]
  | Some _ => []
  end.

(** The frame a run ends in once the output was opened: the output file
    holds [db], and the final report is there if the run ended well. *)
Definition final_frame (w : world) (o : option string) (fn : string) (n : nat)
    (old_db db : fragdb) (r : exn + ()) : frame :=
  Frame (Some (fn, options old_db))
        (Some (Connection (output_path o) db None))
        (Some (length (record db), length (error_record db)))
        (set_files w (<[output_path o := Fragdb db]> (files w)))
        (notice o ++ match r with inr _ => [merge_complete n db] | inl _ => [] end).

(** The file system lets the run create its output and attach its inputs. *)
Definition cooperative (w : world) (output_filename : option string)
    (filenames : list string) : Prop :=
  (output_path output_filename ∉ filenames) ∧
  files w !! output_path output_filename ≠ Some Directory ∧
  connect_error w (output_path output_filename) = None ∧
  Forall (λ fn, attach_error w fn = None) filenames.

End outcomes.

(** ** Example databases *)

(** [repr] for the examples: right for [None], for integers and for
    strings that need no escape. *)
Definition ex_repr (v : pyval) : string :=
  match v with
  | PyNone => "None"
  | PyInt z => NilZero.string_of_int (Z.to_int z)
  | PyStr s => "'" +:+ s +:+ "'"
  end.

Definition ex_options : FragmentOptions :=
  Options [("max_heavies", PyInt 100); ("num_cuts", PyInt 3); ("method", PyStr "chiral");
           ("salt_remover", PyNone)].

Definition ex_other_options : FragmentOptions :=
  Options [("max_heavies", PyInt 100); ("num_cuts", PyInt 2); ("method", PyStr "chiral");
           ("salt_remover", PyStr "salts.txt")].

Definition ex_record (t smiles : string) (heavies : Z) : record_cols :=
  Record_ t (SqlText smiles) (SqlInt heavies) (SqlText smiles).

Definition ex_attrs (cuts : Z) (variable constant : string) : fragmentation_attrs :=
  FragmentationAttrs (SqlInt cuts) (SqlText "N") (SqlInt 1) (SqlText "1") (SqlText variable)
    (SqlText "0") (SqlInt 2) (SqlText "1") (SqlText constant) SqlNull.

(** Two records, three fragmentations; the row identifiers are not the
    ones the output will give. *)
Definition ex_input1 : fragdb :=
  Fragdb_ ex_options []
    [Row 5 (ex_record "mol1" "CCO" 3); Row 9 (ex_record "mol2" "CCN" 3)]
    [Row 1 (Fragmentation 9 (ex_attrs 1 "[*:1]N" "[*:1]CC"));
     Row 2 (Fragmentation 5 (ex_attrs 1 "[*:1]O" "[*:1]CC"));
     Row 3 (Fragmentation 9 (ex_attrs 1 "[*:1]C" "[*:1]CN"))].

(** One record, one fragmentation. *)
Definition ex_input2 : fragdb :=
  Fragdb_ ex_options []
    [Row 1 (ex_record "mol3" "CCS" 3)]
    [Row 1 (Fragmentation 1 (ex_attrs 1 "[*:1]S" "[*:1]CC"))].

(** A shard that repeats the second and first records of [ex_input1]. *)
Definition ex_shard : fragdb :=
  Fragdb_ ex_options []
    [Row 1 (ex_record "mol4" "CCC" 3); Row 2 (ex_record "mol2" "CCN" 3);
     Row 3 (ex_record "mol1" "CCO" 3)]
    [Row 1 (Fragmentation 2 (ex_attrs 1 "[*:1]N" "[*:1]CC"))].

(** The records of [ex_input2] fragmented with other options. *)
Definition ex_other : fragdb :=
  Fragdb_ ex_other_options []
    [Row 1 (ex_record "mol3" "CCS" 3)]
    [Row 1 (Fragmentation 1 (ex_attrs 1 "[*:1]S" "[*:1]CC"))].

(** Two inputs whose error records share the title ["bad"], which is
    also the title of a record of the second. *)
Definition ex_failed1 : fragdb :=
  Fragdb_ ex_options
    [Row 1 (ErrorRecord "bad" (SqlText "C1CC") (SqlText "invalid smiles"))]
    [Row 1 (ex_record "mol5" "CO" 2)]
    [].

Definition ex_failed2 : fragdb :=
  Fragdb_ ex_options
    [Row 1 (ErrorRecord "bad" (SqlText "Q") (SqlText "invalid smiles"))]
    [Row 1 (ex_record "bad" "CN" 2)]
    [Row 1 (Fragmentation 1 (ex_attrs 1 "[*:1]N" "[*:1]C"))].

(** The order of titles as sqlite3 compares them, byte by byte. *)
Definition title_le (s1 s2 : string) : Prop := String.leb s1 s2 = true.

#[global] Instance title_le_dec : RelDecision title_le :=
  λ s1 s2, decide (String.leb s1 s2 = true).

(** A file system where a file that is no database lies at the default
    output path.  The rows of the duplicate check come in the order of
    the titles, as from a scan of an index on the title. *)
Definition ex_world : world :=
  World (<["input1.fragdb" := Fragdb ex_input1]>
         (<["input2.fragdb" := Fragdb ex_input2]>
          (<["shard.fragdb" := Fragdb ex_shard]>
           (<["other.fragdb" := Fragdb ex_other]>
            (<["failed1.fragdb" := Fragdb ex_failed1]>
             (<["failed2.fragdb" := Fragdb ex_failed2]>
              (<["merged.fragdb" := NotFragdb]> ∅)))))))
        (λ filename, if bool_decide (filename = "merged.fragdb")
                     then DatabaseError "file is not a database"
                     else FileNotFoundError filename)
        (λ _, None)
        (λ _, None)
        (merge_sort title_le).

(** The options of a file written before the last field existed. *)
Definition ex_old_options : FragmentOptions :=
  Options [("max_heavies", PyInt 100); ("num_cuts", PyInt 3); ("method", PyStr "chiral")].

(** One record and two fragmentations, the second of which refers to a
    record that is not there. *)
Definition ex_orphan : fragdb :=
  Fragdb_ ex_options []
    [Row 4 (ex_record "mol6" "CCCl" 4)]
    [Row 1 (Fragmentation 4 (ex_attrs 1 "[*:1]Cl" "[*:1]CC"));
     Row 2 (Fragmentation 7 (ex_attrs 1 "[*:1]Br" "[*:1]CC"))].

(** A database that holds the title ["mol7"] twice, and one error
    record. *)
Definition ex_twice : fragdb :=
  Fragdb_ ex_options
    [Row 1 (ErrorRecord "worse" (SqlText "C1C") (SqlText "invalid smiles"))]
    [Row 1 (ex_record "mol7" "CF" 2); Row 2 (ex_record "mol7" "CF" 2)]
    [].

(** One record, whose title is the title of the error record of
    [ex_failed1]. *)
Definition ex_renamed : fragdb :=
  Fragdb_ ex_options []
    [Row 1 (ex_record "bad" "CN" 2)]
    [Row 1 (Fragmentation 1 (ex_attrs 1 "[*:1]N" "[*:1]C"))].

(** The file system of [ex_world] with more in it: a directory, a
    database that sqlite3 cannot attach, a path where it cannot create a
    database, and a database of another format, for which [open_fragdb]
    raises [ValueError]. *)
Definition ex_disk : world :=
  World (<["orphan.fragdb" := Fragdb ex_orphan]>
         (<["twice.fragdb" := Fragdb ex_twice]>
          (<["renamed.fragdb" := Fragdb ex_renamed]>
           (<["busy.fragdb" := Fragdb ex_input2]>
            (<["results" := Directory]>
             (<["readonly.fragdb" := NotFragdb]>
              (<["plain.sqlite" := NotFragdb]> (files ex_world))))))))
        (λ filename, if bool_decide (filename = "plain.sqlite")
                     then ValueError "Cannot open 'plain.sqlite': no such table: options"
                     else open_fragdb_error ex_world filename)
        (λ filename, if bool_decide (filename = "readonly.fragdb")
                     then Some "unable to open database file" else None)
        (λ filename, if bool_decide (filename = "busy.fragdb")
                     then Some "database is locked" else None)
        (select_order ex_world).

(** * Properties *)
(** ** Lists and tables *)

Section list_facts.
Context {A B : Type}.
Implicit Types (l k : list A) (f g : A → list B).

Lemma bind_nil_ext f l : (∀ x, x ∈ l → f x = []) → l ≫= f = [].
Proof.
  induction l as [|x l IH]; intros Hf; [done|].
  rewrite bind_cons, Hf, IH; [done| |left]. intros y Hy. apply Hf. by right.
Qed.

Lemma bind_ext_in f g l : (∀ x, x ∈ l → f x = g x) → l ≫= f = l ≫= g.
Proof.
  intros Hfg. apply Forall_bind_ext, Forall_forall. exact Hfg.
Qed.

(** A loop over rows with distinct keys that keeps only the rows with
    the key of [x] runs its body once, on [x]. *)
Lemma bind_unique {K} `{EqDecision K} (key : A → K) l x g :
  NoDup (key <$> l) → x ∈ l →
  (l ≫= λ y, if decide (key y = key x) then g y else []) = g x.
Proof.
  induction l as [|y l IH]; intros Hnd Hx; [by apply elem_of_nil in Hx|].
  rewrite fmap_cons in Hnd. apply NoDup_cons in Hnd as [Hy Hnd].
  rewrite bind_cons. apply elem_of_cons in Hx as [->|Hx].
  - rewrite decide_True by done. rewrite bind_nil_ext; [by rewrite app_nil_r|].
    intros z Hz. rewrite decide_False; [done|]. intros Heq. apply Hy.
    rewrite <- Heq. by apply list_elem_of_fmap_2.
  - rewrite decide_False, IH; [done..|]. intros Heq. apply Hy.
    rewrite Heq. by apply list_elem_of_fmap_2.
Qed.

Lemma bind_Forall2 {A'} (f : A → list B) (f' : A' → list B) l (l' : list A') :
  Forall2 (λ x x', f x = f' x') l l' → l ≫= f = l' ≫= f'.
Proof.
  induction 1 as [|x x' l l' Hx _ IH]; [done|]. by rewrite !bind_cons, Hx, IH.
Qed.

Lemma length_bind_app f g l :
  length (l ≫= λ x, f x ++ g x) = length (l ≫= f) + length (l ≫= g).
Proof.
  induction l as [|x l IH]; [done|]. rewrite !bind_cons, !length_app, IH. lia.
Qed.

End list_facts.

Lemma NoDup_fmap_eq {A K} (key : A → K) (l : list A) x y :
  NoDup (key <$> l) → x ∈ l → y ∈ l → key x = key y → x = y.
Proof.
  induction l as [|z l IH]; intros Hnd Hx Hy Heq; [by apply elem_of_nil in Hx|].
  rewrite fmap_cons in Hnd. apply NoDup_cons in Hnd as [Hz Hnd].
  apply elem_of_cons in Hx as [->|Hx], Hy as [->|Hy]; [done| | |by apply IH].
  - destruct Hz. rewrite Heq. by apply list_elem_of_fmap_2.
  - destruct Hz. rewrite <- Heq. by apply list_elem_of_fmap_2.
Qed.

Lemma sum_list_app (l k : list nat) : sum_list (l ++ k) = sum_list l + sum_list k.
Proof. induction l as [|n l IH]; simpl; lia. Qed.

Lemma foldr_max_above (i : Z) (ids : list Z) (x : Z) :
  x ∈ i :: ids → (x ≤ foldr Z.max i ids)%Z.
Proof.
  induction ids as [|j ids IH]; intros Hx.
  - apply list_elem_of_singleton in Hx as ->. done.
  - simpl. apply elem_of_cons in Hx as [->|[->|Hx]%elem_of_cons].
    + specialize (IH (list_elem_of_here _ _)). lia.
    + lia.
    + specialize (IH (list_elem_of_further _ _ _ Hx)). lia.
Qed.

Section tables.
Context {A : Type}.
Implicit Types (t : table A) (vs : list A).

Lemma next_rowid_above t r : r ∈ t → (id r < next_rowid t)%Z.
Proof.
  intros Hr. apply (list_elem_of_fmap_2 id) in Hr. unfold next_rowid.
  destruct (id <$> t) as [|i ids]; [by apply elem_of_nil in Hr|].
  pose proof (foldr_max_above i ids (id r) Hr). lia.
Qed.

Lemma next_rowid_fresh t : next_rowid t ∉ id <$> t.
Proof.
  intros (r & Heq & Hr)%list_elem_of_fmap. apply next_rowid_above in Hr. lia.
Qed.

Lemma insert_rows_cons t v vs :
  insert_rows t (v :: vs) = insert_rows (insert_row t v) vs.
Proof. done. Qed.

(** The inserted rows come after the rows of the table, carry the
    selected columns in order, and take identifiers not in use. *)
Lemma insert_rows_spec t vs :
  ∃ news, insert_rows t vs = t ++ news ∧ cols <$> news = vs ∧
          (∀ r, r ∈ news → id r ∉ id <$> t) ∧
          (NoDup (id <$> t) → NoDup (id <$> t ++ news)).
Proof.
  revert t. induction vs as [|v vs IH]; intros t.
  - exists []. rewrite app_nil_r. by split_and!; [..|intros ? ?%elem_of_nil|].
  - rewrite insert_rows_cons. destruct (IH (insert_row t v)) as (news & -> & Hc & Hf & Hnd).
    exists (Row (next_rowid t) v :: news). unfold insert_row in *.
    rewrite <- app_assoc. split_and!; [done|by rewrite fmap_cons, Hc|..].
    + intros r [->|Hr]%elem_of_cons; [apply next_rowid_fresh|].
      intros Hin. apply (Hf r Hr). rewrite fmap_app. apply elem_of_app. by left.
    + intros Ht. rewrite <- app_assoc in Hnd. apply Hnd.
      rewrite fmap_app. apply NoDup_app. split_and!; [done| |apply NoDup_singleton].
      intros i Hi ->%list_elem_of_singleton. by apply next_rowid_fresh in Hi.
Qed.

Lemma cols_insert_rows t vs : cols <$> insert_rows t vs = (cols <$> t) ++ vs.
Proof.
  destruct (insert_rows_spec t vs) as (news & -> & <- & _). by rewrite fmap_app.
Qed.

Lemma insert_rows_prefix t vs : t `prefix_of` insert_rows t vs.
Proof. destruct (insert_rows_spec t vs) as (news & -> & _). by eexists. Qed.

Lemma length_insert_rows t vs : length (insert_rows t vs) = length t + length vs.
Proof.
  rewrite <- (length_fmap cols), cols_insert_rows, length_app, length_fmap. done.
Qed.

Lemma insert_rows_NoDup t vs : NoDup (id <$> t) → NoDup (id <$> insert_rows t vs).
Proof. destruct (insert_rows_spec t vs) as (news & -> & _ & _ & Hnd). done. Qed.

End tables.

Lemma list_bind_bind {A B C} (f : A → list B) (g : B → list C) (l : list A) :
  (l ≫= f) ≫= g = l ≫= λ x, f x ≫= g.
Proof.
  induction l as [|x l IH]; [done|]. by rewrite !bind_cons, bind_app, IH.
Qed.

(** The rows a cursor yields are the rows of the query, each as often. *)
Lemma in_order_Permutation order rows : in_order order rows ≡ₚ rows.
Proof. unfold in_order. by case_decide. Qed.

Lemma in_order_nil order rows : in_order order rows = [] ↔ rows = [].
Proof.
  pose proof (in_order_Permutation order rows) as Hperm. split.
  - intros Hnil. rewrite Hnil in Hperm. symmetry. by apply Permutation_nil_l.
  - intros ->. by apply Permutation_nil_r.
Qed.


(** ** One input merged into the output *)

Lemma elem_of_select_fragmentation c new_records old_records old_fragmentations :
  c ∈ select_fragmentation new_records old_records old_fragmentations ↔
  ∃ nr r f, nr ∈ new_records ∧ r ∈ old_records ∧ f ∈ old_fragmentations ∧
            title (cols r) = title (cols nr) ∧ record_id (cols f) = id r ∧
            c = Fragmentation (id nr) (attrs (cols f)).
Proof.
  unfold select_fragmentation. split.
  - intros (f & (r & (nr & Hc & Hnr)%list_elem_of_bind & Hr)%list_elem_of_bind & Hf)%list_elem_of_bind.
    exists nr, r, f. repeat case_bool_decide; simpl in Hc;
      try by apply elem_of_nil in Hc.
    apply list_elem_of_singleton in Hc. done.
  - intros (nr & r & f & Hnr & Hr & Hf & Ht & Hid & ->).
    apply list_elem_of_bind. exists f. split; [|done].
    apply list_elem_of_bind. exists r. split; [|done].
    apply list_elem_of_bind. exists nr. split; [|done].
    rewrite !bool_decide_eq_true_2 by done. simpl. apply list_elem_of_here.
Qed.

Lemma owned_app r fs1 fs2 : owned r (fs1 ++ fs2) = owned r fs1 ++ owned r fs2.
Proof. apply bind_app. Qed.

Lemma owned_none r fs : (∀ f, f ∈ fs → record_id f ≠ id r) → owned r fs = [].
Proof.
  intros Hfs. apply bind_nil_ext. intros f Hf. by rewrite decide_False by auto.
Qed.

Lemma record_merged out old_db :
  record (merged out old_db) = insert_rows (record out) (cols <$> record old_db).
Proof. done. Qed.

Lemma fragmentation_merged out old_db :
  fragmentation (merged out old_db) =
  insert_rows (fragmentation out)
    (select_fragmentation (insert_rows (record out) (cols <$> record old_db))
       (record old_db) (fragmentation old_db)).
Proof. done. Qed.

Lemma merged_options out old_db : options (merged out old_db) = options out.
Proof. done. Qed.

Lemma merged_error_record out old_db :
  cols <$> error_record (merged out old_db) =
  (cols <$> error_record out) ++ (cols <$> error_record old_db).
Proof. apply cols_insert_rows. Qed.

Lemma merged_record out old_db :
  cols <$> record (merged out old_db) = (cols <$> record out) ++ (cols <$> record old_db).
Proof. apply cols_insert_rows. Qed.

Lemma merged_record_titles out old_db :
  record_titles (merged out old_db) = record_titles out ++ record_titles old_db.
Proof.
  unfold record_titles. rewrite !(list_fmap_compose cols title), merged_record.
  by rewrite fmap_app.
Qed.

Lemma merged_error_record_titles out old_db :
  error_record_titles (merged out old_db) =
  error_record_titles out ++ error_record_titles old_db.
Proof.
  unfold error_record_titles. rewrite !(list_fmap_compose cols er_title), merged_error_record.
  by rewrite fmap_app.
Qed.

Lemma merged_grows out old_db : grows out (merged out old_db).
Proof. split_and!; [done|apply insert_rows_prefix..]. Qed.

Lemma grows_refl out : grows out out.
Proof. by split_and!. Qed.

Lemma bind_sublist {A B} (f g : A → list B) (l : list A) :
  (∀ x, f x `sublist_of` g x) → l ≫= f `sublist_of` l ≫= g.
Proof.
  intros Hfg. induction l as [|x l IH]; [done|]. rewrite !bind_cons. by apply sublist_app.
Qed.

Lemma grows_titled_fragmentations out out' :
  grows out out' → titled_fragmentations out `sublist_of` titled_fragmentations out'.
Proof.
  unfold titled_fragmentations. intros (_ & _ & [rs ->] & [fs ->]).
  rewrite bind_app, fmap_app. etrans; [|apply sublist_inserts_r; reflexivity].
  apply bind_sublist. intros r. rewrite owned_app. by apply sublist_inserts_r.
Qed.

Lemma grows_trans out1 out2 out3 : grows out1 out2 → grows out2 out3 → grows out1 out3.
Proof.
  intros (? & ? & ? & ?) (? & ? & ? & ?). split_and!; [congruence|by etrans..].
Qed.

Lemma merged_well_keyed out old_db : well_keyed out → well_keyed (merged out old_db).
Proof.
  intros [Hnd Hfk]. split; [by apply insert_rows_NoDup|].
  intros f. rewrite fragmentation_merged, record_merged.
  destruct (insert_rows_spec (fragmentation out)
              (select_fragmentation (insert_rows (record out) (cols <$> record old_db))
                 (record old_db) (fragmentation old_db))) as (news & -> & Hc & _).
  intros [Hf|Hf]%elem_of_app.
  - destruct (insert_rows_prefix (record out) (cols <$> record old_db)) as [k ->].
    rewrite fmap_app. apply elem_of_app. left. by apply Hfk.
  - apply (list_elem_of_fmap_2 cols) in Hf. rewrite Hc in Hf.
    apply elem_of_select_fragmentation in Hf as (nr & r' & f' & Hnr & _ & _ & _ & _ & ->).
    simpl. by apply list_elem_of_fmap_2.
Qed.

(** Under the conditions the duplicate check and the input's validity
    give, the fragmentations of the output keep their titles and those
    of the input arrive with theirs. *)
Lemma merged_titled_fragmentations out old_db :
  well_keyed out →
  NoDup (record_titles old_db) →
  (∀ t, t ∈ record_titles out → t ∉ record_titles old_db) →
  titled_fragmentations (merged out old_db) =
  titled_fragmentations out ++ titled_fragmentations old_db.
Proof.
  intros [Hnd Hfk] Hold Hdisj. unfold titled_fragmentations.
  pose proof (insert_rows_NoDup (record out) (cols <$> record old_db) Hnd) as Hnd'.
  assert (cols <$> fragmentation (merged out old_db) =
          (cols <$> fragmentation out) ++
          select_fragmentation (record (merged out old_db)) (record old_db)
            (fragmentation old_db)) as -> by apply cols_insert_rows.
  change (record (merged out old_db))
    with (insert_rows (record out) (cols <$> record old_db)) in *.
  destruct (insert_rows_spec (record out) (cols <$> record old_db))
    as (news & Hrec & Hcols & Hfresh & _).
  rewrite Hrec in Hnd' |- *. set (records := record out ++ news) in *.
  set (sel := select_fragmentation records (record old_db) (fragmentation old_db)).
  assert (∀ nr f, nr ∈ records → f ∈ sel → record_id f = id nr →
            title (cols nr) ∈ record_titles old_db) as Hsel.
  { intros nr f Hnr (nr' & r & f' & Hnr' & Hr & _ & Ht & _ & ->)%elem_of_select_fragmentation Hid.
    simpl in Hid. assert (nr' = nr) as -> by eauto using NoDup_fmap_eq.
    rewrite <- Ht. unfold record_titles.
    by apply (list_elem_of_fmap_2 (title ∘ cols)). }
  unfold records at 1. rewrite bind_app. f_equal.
  - (* the records that were there: nothing new belongs to them *)
    apply bind_ext_in. intros r Hr. rewrite owned_app, (owned_none r sel), app_nil_r; [done|].
    intros f Hf Hid. apply (Hdisj (title (cols r))).
    + by apply (list_elem_of_fmap_2 (title ∘ cols)).
    + apply (Hsel r f); [|done..]. apply elem_of_app. by left.
  - (* the records just inserted *)
    apply bind_Forall2. apply Forall2_same_length_lookup_2.
    { by rewrite <- (length_fmap cols news), Hcols, length_fmap. }
    intros i nr r Hnr Hr.
    assert (cols nr = cols r) as Hc.
    { apply (f_equal (.!! i)) in Hcols. rewrite !list_lookup_fmap, Hnr, Hr in Hcols.
      by injection Hcols. }
    apply list_elem_of_lookup_2 in Hnr, Hr.
    assert (nr ∈ records) as Hnr' by (apply elem_of_app; by right).
    rewrite owned_app, owned_none, app_nil_l.
    2:{ intros f Hf Hid. apply (Hfresh nr Hnr). rewrite <- Hid.
        apply list_elem_of_fmap in Hf as (f' & -> & Hf'). by apply Hfk. }
    unfold owned, sel, select_fragmentation. rewrite list_bind_bind, list_fmap_bind.
    apply bind_ext_in. intros f _. rewrite list_bind_bind.
    rewrite (bind_ext_in _
      (λ r', if decide ((title ∘ cols) r' = (title ∘ cols) r) then
               if decide (record_id (cols f) = id r')
               then [(title (cols nr), attrs (cols f))] else []
             else [])).
    2:{ intros r' _. rewrite list_bind_bind.
        rewrite (bind_ext_in _
          (λ nr', if decide (id nr' = id nr) then
                    if bool_decide (title (cols r') = title (cols nr)) &&
                       bool_decide (record_id (cols f) = id r')
                    then [(title (cols nr), attrs (cols f))] else []
                  else [])).
        2:{ intros nr' Hnr''. case_decide as Hid.
            - assert (nr' = nr) as -> by eauto using NoDup_fmap_eq.
              destruct (_ && _); [|done]. rewrite bind_singleton. simpl.
              by rewrite decide_True.
            - destruct (_ && _); [|done]. rewrite bind_singleton. simpl.
              by rewrite decide_False. }
        rewrite (bind_unique id records nr) by done. simpl. rewrite Hc.
        case_decide as Ht.
        - rewrite bool_decide_eq_true_2 by done. simpl.
          by destruct (decide _); [rewrite bool_decide_eq_true_2|rewrite bool_decide_eq_false_2].
        - by rewrite bool_decide_eq_false_2. }
    rewrite (bind_unique (title ∘ cols) (record old_db) r) by done.
    simpl. by rewrite Hc.
Qed.

(** ** Several inputs merged in turn *)

Lemma merge_all_snoc opts dbs db :
  merge_all opts (dbs ++ [db]) = merged (merge_all opts dbs) db.
Proof. unfold merge_all. by rewrite foldl_app. Qed.

Lemma init_fragdb_well_keyed opts : well_keyed (init_fragdb opts).
Proof. split; [apply NoDup_nil_2|]. by intros f ?%elem_of_nil. Qed.

Lemma merge_all_options opts dbs : options (merge_all opts dbs) = opts.
Proof.
  induction dbs as [|db dbs IH] using rev_ind; [done|].
  by rewrite merge_all_snoc, merged_options.
Qed.

Lemma merge_all_well_keyed opts dbs : well_keyed (merge_all opts dbs).
Proof.
  induction dbs as [|db dbs IH] using rev_ind; [apply init_fragdb_well_keyed|].
  rewrite merge_all_snoc. by apply merged_well_keyed.
Qed.

Lemma merge_all_error_record opts dbs :
  cols <$> error_record (merge_all opts dbs) = dbs ≫= λ db, cols <$> error_record db.
Proof.
  induction dbs as [|db dbs IH] using rev_ind; [done|].
  by rewrite merge_all_snoc, merged_error_record, IH, bind_app, bind_singleton.
Qed.

Lemma merge_all_record opts dbs :
  cols <$> record (merge_all opts dbs) = dbs ≫= λ db, cols <$> record db.
Proof.
  induction dbs as [|db dbs IH] using rev_ind; [done|].
  by rewrite merge_all_snoc, merged_record, IH, bind_app, bind_singleton.
Qed.

Lemma merge_all_record_titles opts dbs :
  record_titles (merge_all opts dbs) = dbs ≫= record_titles.
Proof.
  induction dbs as [|db dbs IH] using rev_ind; [done|].
  by rewrite merge_all_snoc, merged_record_titles, IH, bind_app, bind_singleton.
Qed.

Lemma merge_all_error_record_titles opts dbs :
  error_record_titles (merge_all opts dbs) = dbs ≫= error_record_titles.
Proof.
  induction dbs as [|db dbs IH] using rev_ind; [done|].
  by rewrite merge_all_snoc, merged_error_record_titles, IH, bind_app, bind_singleton.
Qed.

Lemma merge_all_length_record opts dbs :
  length (record (merge_all opts dbs)) = sum_list ((length ∘ record) <$> dbs).
Proof.
  induction dbs as [|db dbs IH] using rev_ind; [done|].
  rewrite merge_all_snoc, record_merged, length_insert_rows, IH, length_fmap.
  rewrite fmap_app, sum_list_app. simpl. lia.
Qed.

Lemma merge_all_length_error_record opts dbs :
  length (error_record (merge_all opts dbs)) = sum_list ((length ∘ error_record) <$> dbs).
Proof.
  induction dbs as [|db dbs IH] using rev_ind; [done|].
  rewrite merge_all_snoc. unfold merged at 1. simpl error_record.
  rewrite length_insert_rows, IH, length_fmap.
  rewrite fmap_app, sum_list_app. simpl. lia.
Qed.

Lemma merge_all_titled_fragmentations opts dbs :
  NoDup (dbs ≫= record_titles) →
  titled_fragmentations (merge_all opts dbs) = dbs ≫= titled_fragmentations.
Proof.
  induction dbs as [|db dbs IH] using rev_ind; intros Hnd; [done|].
  rewrite bind_app, bind_singleton in Hnd. apply NoDup_app in Hnd as (Hdbs & Hdisj & Hdb).
  rewrite merge_all_snoc, merged_titled_fragmentations, IH, bind_app, bind_singleton;
    [done..|apply merge_all_well_keyed|done|].
  by rewrite merge_all_record_titles.
Qed.

Lemma originates_app dbs dbs' t a : originates dbs t a → originates (dbs ++ dbs') t a.
Proof.
  intros (db & r & f & Hdb & H). exists db, r, f. split; [|done].
  apply elem_of_app. by left.
Qed.

Lemma merge_all_originates opts dbs f r :
  f ∈ fragmentation (merge_all opts dbs) → r ∈ record (merge_all opts dbs) →
  id r = record_id (cols f) →
  originates dbs (title (cols r)) (attrs (cols f)).
Proof.
  revert f r. induction dbs as [|db dbs IH] using rev_ind; intros f r Hf Hr Hid.
  { by apply elem_of_nil in Hf. }
  rewrite merge_all_snoc in Hf, Hr.
  pose proof (merge_all_well_keyed opts (dbs ++ [db])) as [Hnd _].
  rewrite merge_all_snoc in Hnd.
  destruct (merge_all_well_keyed opts dbs) as [_ Hfk].
  rewrite fragmentation_merged in Hf.
  destruct (insert_rows_spec (fragmentation (merge_all opts dbs))
              (select_fragmentation
                 (insert_rows (record (merge_all opts dbs)) (cols <$> record db))
                 (record db) (fragmentation db))) as (news & Hins & Hc & _).
  rewrite Hins in Hf. clear Hins. apply elem_of_app in Hf as [Hf|Hf].
  - apply originates_app. apply IH; [done| |done].
    destruct (list_elem_of_fmap_1 _ _ _ (Hfk f Hf)) as (r0 & Hid0 & Hr0).
    assert (r = r0) as ->; [|done].
    apply (NoDup_fmap_eq id _ _ _ Hnd); [done| |congruence].
    rewrite record_merged.
    destruct (insert_rows_prefix (record (merge_all opts dbs)) (cols <$> record db))
      as [k ->]. apply elem_of_app. by left.
  - apply (list_elem_of_fmap_2 cols) in Hf. rewrite Hc in Hf.
    apply elem_of_select_fragmentation in Hf
      as (nr & r' & f' & Hnr & Hr' & Hf' & Ht & Hid' & Hf).
    rewrite Hf in Hid |- *. simpl in *.
    assert (r = nr) as -> by (by apply (NoDup_fmap_eq id _ _ _ Hnd)).
    exists db, r', f'. split_and!; [|done..]. apply elem_of_app. right. apply list_elem_of_here.
Qed.

(** ** The loop body, from [ATTACH] on *)

(** Unfolds the monad of statements. *)
Ltac py_unfold :=
  repeat progress
    unfold mbind, py_bind, bind, ret, raise, die, call, get, modify, try_except, try_finally.

Section program_facts.
Variable ddl : index_ddl.
Variable repr : pyval → string.

Lemma resting_resting out db db' f : resting out db' (resting out db f) = resting out db' f.
Proof. unfold resting, set_files. simpl. by rewrite insert_insert_eq. Qed.

Lemma merge_file_attach_and_copy out fn :
  merge_file ddl repr out fn =
  (old_db ← try_except (open_fragdb fn)
              (λ e, match e with ValueError err => Some (die [err]) | _ => None end);
   (fst_ ← get first;
    match fst_ with
    | None =>
        modify (set_first (Some (fn, options old_db))) ;;
        try_except
          (c ← open_output_fragdb out (options old_db);
           modify (set_output_c (Some c)))
          (λ e, match e with
                | OperationalError err =>
                    Some (die ["Error trying to open " +:+ repr (PyStr out) +:+
                               " for writing: " +:+ err])
                | _ => None
                end)
    | Some (first_filename, first_options) =>
        call (check_options_mismatch repr fn (options old_db) first_filename first_options)
    end) ;;
   attach_and_copy ddl repr fn).
Proof. done. Qed.

Lemma attach_and_copy_resting out fn db old_db f :
  files (env f) !! fn = Some (Fragdb old_db) → fn ≠ out →
  attach_and_copy ddl repr fn (resting out db f) =
  (resting out
     (copy_outcome ddl repr fn (attach_error (env f) fn) (select_order (env f)) db old_db).1 f,
   (copy_outcome ddl repr fn (attach_error (env f) fn) (select_order (env f)) db old_db).2).
Proof.
  intros Hfn Hne. unfold attach_and_copy, copy_outcome.
  unfold mbind, py_bind, bind, try_except, try_finally, sql_attach_old. simpl.
  destruct (attach_error (env f) fn) as [err|]; [done|].
  rewrite lookup_insert_ne, Hfn by done. unfold get. simpl.
  destruct (in_order (select_order (env f)) (duplicate_titles (record old_db) (record db)))
    as [|t ts]; simpl.
  - unfold _execute_sql, fragdb_merge_sql, for_each, mbind, py_bind, bind, execute.
    unfold copy_error_record, copy_record. simpl.
    destruct (unique_ok (error_record_title_unique ddl) _); simpl;
      [|by rewrite insert_insert_eq].
    destruct (unique_ok (record_title_unique ddl) _); simpl; by rewrite insert_insert_eq.
  - by rewrite insert_insert_eq.
Qed.

Lemma merge_file_resting out fn db f first_filename first_options :
  first f = Some (first_filename, first_options) → fn ≠ out →
  merge_file ddl repr out fn (resting out db f) =
  (resting out (file_outcome ddl repr (env f) first_filename first_options fn db).1 f,
   (file_outcome ddl repr (env f) first_filename first_options fn db).2).
Proof.
  intros Hfirst Hne. rewrite merge_file_attach_and_copy. unfold file_outcome.
  unfold mbind at 1, py_bind, bind at 1, try_except, open_fragdb. simpl.
  rewrite lookup_insert_ne by done.
  destruct (files (env f) !! fn) as [[old_db| |]|] eqn:Hfn;
    try by destruct (open_fragdb_error (env f) fn).
  unfold mbind, py_bind, bind, get, call. simpl. rewrite Hfirst.
  destruct (check_options_mismatch repr fn (options old_db) first_filename first_options)
    as [e|[]]; [done|].
  by apply attach_and_copy_resting.
Qed.

Lemma for_each_merge_file_resting out fns db f first_filename first_options :
  first f = Some (first_filename, first_options) → out ∉ fns →
  for_each fns (merge_file ddl repr out) (resting out db f) =
  (resting out (files_outcome ddl repr (env f) first_filename first_options fns db).1 f,
   (files_outcome ddl repr (env f) first_filename first_options fns db).2).
Proof.
  intros Hfirst. revert db. induction fns as [|fn fns IH]; intros db Hout; [done|].
  apply not_elem_of_cons in Hout as [Hne Hout]. simpl.
  unfold mbind, py_bind, bind. rewrite (merge_file_resting _ _ _ _ _ _ Hfirst) by done.
  destruct (file_outcome ddl repr (env f) first_filename first_options fn db)
    as [db' [e|[]]]; [done|].
  by apply IH.
Qed.

End program_facts.

(** ** The first file, the outer [finally] and the whole run *)

Section run_facts.
Variable ddl : index_ddl.
Variable repr : pyval → string.

Lemma py_bind_eq {S A B} (m : py S A) (k : A → py S B) (s : S) :
  (m ≫= k) s = match m s with
               | (s', inr a) => k a s'
               | (s', inl e) => (s', inl e)
               end.
Proof. done. Qed.

Lemma dict_get_keys k (d : dict) : k ∈ dict_keys d → is_Some (dict_get k d).
Proof.
  unfold dict_keys. induction d as [|[k' v] d IH]; [by intros ?%elem_of_nil|].
  rewrite fmap_cons. simpl. intros Hk. case_decide; [by eexists|].
  apply elem_of_cons in Hk as [?|?]; [congruence|auto].
Qed.

Lemma dict_eqb_refl d : dict_eqb d d = true.
Proof.
  unfold dict_eqb. rewrite bool_decide_eq_true_2 by done. simpl.
  apply forallb_forall. intros k _. by apply bool_decide_eq_true_2.
Qed.

Lemma check_options_mismatch_same fn opts first_filename :
  check_options_mismatch repr fn opts first_filename opts = inr ().
Proof. unfold check_options_mismatch. by rewrite dict_eqb_refl. Qed.

Lemma merge_file_first out fn f old_db :
  first f = None → files (env f) !! fn = Some (Fragdb old_db) → fn ≠ out →
  files (env f) !! out ≠ Some Directory → connect_error (env f) out = None →
  merge_file ddl repr out fn f =
  (resting out
     (copy_outcome ddl repr fn (attach_error (env f) fn) (select_order (env f))
        (init_fragdb (options old_db)) old_db).1
     (set_first (Some (fn, options old_db)) f),
   (copy_outcome ddl repr fn (attach_error (env f) fn) (select_order (env f))
      (init_fragdb (options old_db)) old_db).2).
Proof.
  intros Hfirst Hfn Hne Hdir Hconn. rewrite merge_file_attach_and_copy.
  rewrite py_bind_eq. unfold try_except at 1, open_fragdb. rewrite Hfn.
  rewrite py_bind_eq, py_bind_eq. unfold get at 1. rewrite Hfirst.
  assert ((modify (set_first (Some (fn, options old_db))) ;;
           try_except
             (c ← open_output_fragdb out (options old_db); modify (set_output_c (Some c)))
             (λ e, match e with
                   | OperationalError err =>
                       Some (die ["Error trying to open " +:+ repr (PyStr out) +:+
                                  " for writing: " +:+ err])
                   | _ => None
                   end)) f =
          (resting out (init_fragdb (options old_db))
             (set_first (Some (fn, options old_db)) f), inr ())) as ->.
  { unfold mbind, py_bind, bind, modify, try_except, open_output_fragdb, os_unlink,
      mbind, py_bind, bind, try_except, create_fragdb, resting. simpl.
    destruct (files (env f) !! out) as [[]|] eqn:Hout; try done; simpl;
      rewrite ?Hconn; simpl; rewrite ?lookup_delete_eq, ?Hout; simpl;
      by rewrite ?insert_delete_eq. }
  cbv beta iota.
  exact (attach_and_copy_resting ddl repr out fn _ old_db
           (set_first (Some (fn, options old_db)) f) Hfn Hne).
Qed.

Lemma gather_counts_resting out db f :
  gather_counts (resting out db f) =
  (set_num (Some (length (record db), length (error_record db))) (resting out db f), inr ()).
Proof.
  unfold gather_counts, mbind, py_bind, bind, get, sql_commit, fetch, modify. simpl.
  unfold set_num, resting, set_files. simpl. by rewrite insert_insert_eq.
Qed.

Lemma files_outcome_first w fn fns old_db :
  files w !! fn = Some (Fragdb old_db) →
  files_outcome ddl repr w fn (options old_db) (fn :: fns) (init_fragdb (options old_db)) =
  match copy_outcome ddl repr fn (attach_error w fn) (select_order w)
          (init_fragdb (options old_db)) old_db with
  | (db, inr _) => files_outcome ddl repr w fn (options old_db) fns db
  | (db, inl e) => (db, inl e)
  end.
Proof.
  intros Hfn. simpl. unfold file_outcome. by rewrite Hfn, check_options_mismatch_same.
Qed.

Theorem run_outcome w fn fns o old_db :
  files w !! fn = Some (Fragdb old_db) →
  output_path o ∉ fn :: fns →
  files w !! output_path o ≠ Some Directory →
  connect_error w (output_path o) = None →
  run ddl repr w (fn :: fns) o =
  let '(db, r) := files_outcome ddl repr w fn (options old_db) (fn :: fns)
                    (init_fragdb (options old_db)) in
  (final_frame repr w o fn (length (fn :: fns)) old_db db r, r).
Proof.
  intros Hfn Hout Hdir Hconn. rewrite files_outcome_first by done.
  apply not_elem_of_cons in Hout as [Hne Hout].
  unfold run, fragdb_merge. rewrite bool_decide_eq_false_2 by done.
  rewrite py_bind_eq. unfold ret at 1. rewrite py_bind_eq.
  set (f0 := Frame None None None w (notice repr o)).
  assert ((match o with
           | Some name => ret name
           | None =>
               report ("No --output file name specified. Using " +:+
                       repr (PyStr "merged.fragdb") +:+ ".") ;;
               ret "merged.fragdb"
           end) (initial_frame w) = (f0, inr (output_path o))) as ->
    by (by destruct o).
  rewrite py_bind_eq. unfold try_finally.
  change (for_each (fn :: fns) (merge_file ddl repr (output_path o)))
    with (merge_file ddl repr (output_path o) fn ;;
          for_each fns (merge_file ddl repr (output_path o))).
  rewrite py_bind_eq.
  rewrite (merge_file_first _ _ f0 old_db) by done.
  simpl (attach_error _ _). simpl (select_order _).
  destruct (copy_outcome ddl repr fn (attach_error w fn) (select_order w)
              (init_fragdb (options old_db)) old_db)
    as [db1 [e|[]]]; simpl fst; simpl snd; cbv beta iota.
  - rewrite gather_counts_resting. cbv beta iota. unfold final_frame.
    by rewrite app_nil_r.
  - rewrite (for_each_merge_file_resting ddl repr _ _ _ _ fn (options old_db)) by done.
    simpl (env _).
    destruct (files_outcome ddl repr w fn (options old_db) fns db1) as [db [e|[]]];
      simpl fst; simpl snd; cbv beta iota; rewrite gather_counts_resting; cbv beta iota.
    + unfold final_frame. by rewrite app_nil_r.
    + done.
Qed.

End run_facts.

(** ** What the loop does to the output database *)

Section outcome_facts.
Variable ddl : index_ddl.
Variable repr : pyval → string.

Lemma duplicate_titles_cons r old_records new_records :
  duplicate_titles (r :: old_records) new_records =
  (new_records ≫= λ nr,
     if bool_decide (title (cols r) = title (cols nr)) then [title (cols r)] else []) ++
  duplicate_titles old_records new_records.
Proof. done. Qed.

Lemma duplicate_titles_row r new_records :
  ((title (cols r) ∉ (title ∘ cols) <$> new_records) ∧
   (new_records ≫= λ nr,
      if bool_decide (title (cols r) = title (cols nr)) then [title (cols r)] else []) = []) ∨
  (title (cols r) ∈ (title ∘ cols) <$> new_records ∧
   ∃ ts, (new_records ≫= λ nr,
            if bool_decide (title (cols r) = title (cols nr)) then [title (cols r)] else []) =
         title (cols r) :: ts).
Proof.
  induction new_records as [|nr nrs IH].
  - left. split; [by intros ?%elem_of_nil|done].
  - rewrite bind_cons, fmap_cons. case_bool_decide as Heq.
    + right. split; [rewrite Heq; left|by eexists].
    + destruct IH as [[Hn ->]|[Hin [ts ->]]].
      * left. split; [|done]. by intros [?|?]%elem_of_cons.
      * right. split; [by right|by eexists].
Qed.

Lemma duplicate_titles_nil old_records new_records :
  (∀ t, t ∈ (title ∘ cols) <$> new_records → t ∉ (title ∘ cols) <$> old_records) →
  duplicate_titles old_records new_records = [].
Proof.
  intros Hdisj. induction old_records as [|r rs IH]; [done|].
  rewrite duplicate_titles_cons.
  destruct (duplicate_titles_row r new_records) as [[Hn ->]|[Hin _]].
  - apply IH. intros t Ht Hin. apply (Hdisj t Ht). rewrite fmap_cons. by right.
  - destruct (Hdisj _ Hin). rewrite fmap_cons. left.
Qed.

Lemma unique_ok_NoDup enforced keys : NoDup keys → unique_ok enforced keys = true.
Proof.
  intros Hnd. unfold unique_ok. rewrite bool_decide_eq_true_2 by done. by destruct enforced.
Qed.

Lemma unique_ok_app_l enforced keys keys' :
  unique_ok enforced (keys ++ keys') = true → unique_ok enforced keys = true.
Proof.
  unfold unique_ok. destruct enforced; [|done]. simpl.
  rewrite !bool_decide_eq_true. by intros (? & _ & _)%NoDup_app.
Qed.

Lemma copy_outcome_grows fn attach_err order out old_db :
  grows out (copy_outcome ddl repr fn attach_err order out old_db).1.
Proof.
  unfold copy_outcome. destruct attach_err; [apply grows_refl|].
  destruct (in_order _ _); [|apply grows_refl].
  destruct (unique_ok (error_record_title_unique ddl) _); [|apply grows_refl].
  destruct (unique_ok (record_title_unique ddl) _); [apply merged_grows|].
  split_and!; [done|apply insert_rows_prefix|done..].
Qed.

Lemma copy_outcome_inv fn attach_err order out old_db out' :
  copy_outcome ddl repr fn attach_err order out old_db = (out', inr ()) →
  out' = merged out old_db ∧ attach_err = None ∧
  duplicate_titles (record old_db) (record out) = [].
Proof.
  unfold copy_outcome. destruct attach_err; [done|].
  destruct (in_order _ _) eqn:Hdup; [|done]. apply in_order_nil in Hdup.
  destruct (unique_ok (error_record_title_unique ddl) _); [|done].
  destruct (unique_ok (record_title_unique ddl) _); [|done].
  by intros [= <-].
Qed.

Lemma copy_outcome_ok fn order out old_db :
  NoDup (record_titles out ++ record_titles old_db) →
  unique_ok (error_record_title_unique ddl)
    (error_record_titles out ++ error_record_titles old_db) = true →
  copy_outcome ddl repr fn None order out old_db = (merged out old_db, inr ()).
Proof.
  intros Hnd Herr. unfold copy_outcome.
  rewrite (proj2 (in_order_nil order _)).
  2:{ apply duplicate_titles_nil. apply NoDup_app in Hnd as (_ & Hdisj & _). exact Hdisj. }
  change ((er_title ∘ cols) <$> insert_rows (error_record out) (cols <$> error_record old_db))
    with (error_record_titles (merged out old_db)).
  change ((title ∘ cols) <$> insert_rows (record out) (cols <$> record old_db))
    with (record_titles (merged out old_db)).
  rewrite merged_error_record_titles, merged_record_titles, Herr.
  by rewrite unique_ok_NoDup.
Qed.

Lemma file_outcome_grows w first_filename first_options fn out :
  grows out (file_outcome ddl repr w first_filename first_options fn out).1.
Proof.
  unfold file_outcome. destruct (files w !! fn) as [[old_db| |]|]; try apply grows_refl.
  destruct (check_options_mismatch _ _ _ _ _); [apply grows_refl|apply copy_outcome_grows].
Qed.

Lemma files_outcome_grows w first_filename first_options fns out :
  grows out (files_outcome ddl repr w first_filename first_options fns out).1.
Proof.
  revert out. induction fns as [|fn fns IH]; intros out; [apply grows_refl|]. simpl.
  pose proof (file_outcome_grows w first_filename first_options fn out) as Hg.
  destruct (file_outcome _ _ _ _ _ _ _) as [out' [e|[]]]; [done|].
  eapply grows_trans; [exact Hg|apply IH].
Qed.

Lemma files_outcome_app w first_filename first_options fns fns' out :
  files_outcome ddl repr w first_filename first_options (fns ++ fns') out =
  match files_outcome ddl repr w first_filename first_options fns out with
  | (out', inr _) => files_outcome ddl repr w first_filename first_options fns' out'
  | (out', inl e) => (out', inl e)
  end.
Proof.
  revert out. induction fns as [|fn fns IH]; intros out; [done|]. simpl.
  destruct (file_outcome _ _ _ _ _ _ _) as [out' [e|[]]]; [done|]. apply IH.
Qed.

(** A loop that ends well has found a fragment database at every path,
    with the options of the first, and has merged them in order. *)
Lemma files_outcome_inv w first_filename first_options fns out out' :
  files_outcome ddl repr w first_filename first_options fns out = (out', inr ()) →
  ∃ dbs, inputs_at w fns dbs ∧ out' = foldl merged out dbs ∧
         Forall (λ db, dict_eqb (to_dict (options db)) (to_dict first_options) = true) dbs ∧
         Forall (λ fn, attach_error w fn = None) fns.
Proof.
  revert out. induction fns as [|fn fns IH]; intros out.
  - intros [= <-]. exists []. by split_and!; constructor.
  - simpl. unfold file_outcome at 1.
    destruct (files w !! fn) as [[old_db| |]|] eqn:Hfn; try done.
    unfold check_options_mismatch.
    destruct (dict_eqb _ _) eqn:Hopts; [|by destruct (mismatch_lines _ _ _ _)].
    destruct (copy_outcome _ _ _ _ _ _ _) as [out1 [e|[]]] eqn:Hcopy; [done|].
    apply copy_outcome_inv in Hcopy as (-> & Hatt & _).
    intros (dbs & Hdbs & -> & Hopt & Hat)%IH.
    exists (old_db :: dbs). by split_and!; [constructor| |constructor|constructor].
Qed.

Lemma files_outcome_ok w first_filename first_options fns dbs out :
  inputs_at w fns dbs →
  Forall (λ fn, attach_error w fn = None) fns →
  Forall (λ db, dict_eqb (to_dict (options db)) (to_dict first_options) = true) dbs →
  NoDup (record_titles out ++ (dbs ≫= record_titles)) →
  unique_ok (error_record_title_unique ddl)
    (error_record_titles out ++ (dbs ≫= error_record_titles)) = true →
  files_outcome ddl repr w first_filename first_options fns out = (foldl merged out dbs, inr ()).
Proof.
  intros Hdbs. revert out.
  induction Hdbs as [|fn db fns dbs Hfn _ IH]; intros out Hatt Hopts Hnd Herr; [done|].
  apply Forall_cons in Hatt as [Hatt1 Hatt], Hopts as [Hopts1 Hopts].
  rewrite bind_cons, app_assoc in Hnd, Herr.
  simpl. unfold file_outcome, check_options_mismatch. rewrite Hfn, Hopts1, Hatt1.
  rewrite copy_outcome_ok.
  - apply IH; [done..| |].
    + by rewrite merged_record_titles.
    + by rewrite merged_error_record_titles.
  - by apply NoDup_app in Hnd as (? & _).
  - by apply unique_ok_app_l in Herr.
Qed.

Lemma copy_outcome_inv_unique fn attach_err order out old_db out' :
  copy_outcome ddl repr fn attach_err order out old_db = (out', inr ()) →
  unique_ok (error_record_title_unique ddl) (error_record_titles out') = true ∧
  unique_ok (record_title_unique ddl) (record_titles out') = true.
Proof.
  unfold copy_outcome. destruct attach_err; [done|].
  destruct (in_order _ _) eqn:Hdup; [|done]. apply in_order_nil in Hdup.
  destruct (unique_ok (error_record_title_unique ddl) _) eqn:He; [|done].
  destruct (unique_ok (record_title_unique ddl) _) eqn:Hr; [|done].
  by intros [= <-].
Qed.

Lemma files_outcome_error_titles w first_filename first_options fns out out' :
  files_outcome ddl repr w first_filename first_options fns out = (out', inr ()) →
  unique_ok (error_record_title_unique ddl) (error_record_titles out) = true →
  unique_ok (error_record_title_unique ddl) (error_record_titles out') = true.
Proof.
  revert out. induction fns as [|fn fns IH]; intros out; [by intros [= <-]|].
  simpl. unfold file_outcome at 1.
  destruct (files w !! fn) as [[old_db| |]|]; try done.
  destruct (check_options_mismatch _ _ _ _ _) as [e|[]]; [done|].
  destruct (copy_outcome _ _ _ _ _ _ _) as [out1 [e|[]]] eqn:Hcopy; [done|].
  apply copy_outcome_inv_unique in Hcopy as [He _]. intros Hloop _. by apply (IH out1).
Qed.

End outcome_facts.

(** ** Runs that end well *)

Section run_ends.
Variable ddl : index_ddl.
Variable repr : pyval → string.

Lemma run_nil w o :
  run ddl repr w [] o = (initial_frame w, inl (AssertionError "should have been handled by click")).
Proof. done. Qed.

(** When the body fails on the first file the run fails. *)
Lemma run_first_fails w fn fns o f1 e :
  merge_file ddl repr (output_path o) fn (Frame None None None w (notice repr o)) = (f1, inl e) →
  ∃ f e', run ddl repr w (fn :: fns) o = (f, inl e').
Proof.
  intros Hfirst. unfold run, fragdb_merge. rewrite bool_decide_eq_false_2 by done.
  rewrite py_bind_eq. unfold ret at 1. rewrite py_bind_eq.
  assert ((match o with
           | Some name => ret name
           | None =>
               report ("No --output file name specified. Using " +:+
                       repr (PyStr "merged.fragdb") +:+ ".") ;;
               ret "merged.fragdb"
           end) (initial_frame w) =
          (Frame None None None w (notice repr o), inr (output_path o))) as ->
    by (by destruct o).
  rewrite py_bind_eq. unfold try_finally.
  change (for_each (fn :: fns) (merge_file ddl repr (output_path o)))
    with (merge_file ddl repr (output_path o) fn ;;
          for_each fns (merge_file ddl repr (output_path o))).
  rewrite py_bind_eq, Hfirst.
  destruct (gather_counts f1) as [f2 [e2|[]]]; by eexists _, _.
Qed.

Lemma run_inr_inv w fns o f' :
  output_path o ∉ fns →
  run ddl repr w fns o = (f', inr ()) →
  ∃ fn fns' old_db, fns = fn :: fns' ∧ files w !! fn = Some (Fragdb old_db) ∧
    files w !! output_path o ≠ Some Directory ∧ connect_error w (output_path o) = None.
Proof.
  intros Hout Hrun. destruct fns as [|fn fns]; [by rewrite run_nil in Hrun|].
  set (f0 := Frame None None None w (notice repr o)).
  destruct (merge_file ddl repr (output_path o) fn f0) as [f1 r] eqn:Hbody.
  assert (∀ e, r ≠ inl e) as Hr.
  { intros e ->. destruct (run_first_fails w fn fns o f1 e Hbody) as (f & e' & Hf).
    by rewrite Hf in Hrun. }
  rewrite merge_file_attach_and_copy in Hbody. unfold f0 in Hbody. clear f0.
  rewrite py_bind_eq in Hbody. unfold try_except at 1, open_fragdb in Hbody.
  simpl (env _) in Hbody.
  destruct (files w !! fn) as [[old_db| |]|] eqn:Hfn;
    try (destruct (open_fragdb_error w fn); injection Hbody as _ <-;
         by destruct (Hr _ eq_refl)).
  exists fn, fns, old_db. split_and!; [done..| |].
  - intros Hdir. revert Hbody. unfold open_output_fragdb, os_unlink. py_unfold.
    simpl. rewrite Hdir. intros [= _ <-]. by destruct (Hr _ eq_refl).
  - destruct (connect_error w (output_path o)) as [err|] eqn:Hconn; [|done]. revert Hbody.
    unfold open_output_fragdb, os_unlink, create_fragdb. py_unfold.
    simpl. destruct (files w !! output_path o) as [[]|]; simpl; rewrite ?Hconn;
      intros [= _ <-]; by destruct (Hr _ eq_refl).
Qed.

(** A run that ends well has merged the fragment databases at its paths,
    in order, into a fresh output that carries the options of the first,
    and has reported the counts of that output. *)
Theorem run_inr w fns o f' :
  output_path o ∉ fns →
  run ddl repr w fns o = (f', inr ()) →
  ∃ fn old_db dbs,
    head fns = Some fn ∧ inputs_at w fns (old_db :: dbs) ∧
    f' = final_frame repr w o fn (length fns) old_db
           (merge_all (options old_db) (old_db :: dbs)) (inr ()) ∧
    Forall (λ db, dict_eqb (to_dict (options db)) (to_dict (options old_db)) = true) dbs.
Proof.
  intros Hout Hrun.
  destruct (run_inr_inv w fns o f' Hout Hrun) as (fn & fns' & old_db & -> & Hfn & Hdir & Hconn).
  rewrite (run_outcome ddl repr w fn fns' o old_db) in Hrun by done.
  destruct (files_outcome _ _ _ _ _ _ _) as [db r] eqn:Hloop.
  injection Hrun as <- ->.
  apply files_outcome_inv in Hloop as (dbs & Hdbs & -> & Hopts & _).
  apply Forall2_cons_inv_l in Hdbs as (old_db' & dbs' & Hfn' & Hdbs & ->).
  rewrite Hfn in Hfn'. injection Hfn' as <-.
  apply Forall_cons in Hopts as [_ Hopts].
  exists fn, old_db, dbs'. split_and!; [done| |done..]. by constructor.
Qed.

(** Valid inputs with the options of the first, pairwise distinct record
    titles and error titles the index accepts are merged to the end. *)
Theorem run_merges w fn fns o old_db dbs :
  inputs_at w (fn :: fns) (old_db :: dbs) →
  cooperative w o (fn :: fns) →
  Forall (λ db, dict_eqb (to_dict (options db)) (to_dict (options old_db)) = true) dbs →
  NoDup ((old_db :: dbs) ≫= record_titles) →
  unique_ok (error_record_title_unique ddl) ((old_db :: dbs) ≫= error_record_titles) = true →
  run ddl repr w (fn :: fns) o =
  (final_frame repr w o fn (length (fn :: fns)) old_db
     (merge_all (options old_db) (old_db :: dbs)) (inr ()), inr ()).
Proof.
  intros Hdbs (Hout & Hdir & Hconn & Hatt) Hopts Hnd Herr.
  pose proof Hdbs as Hdbs'. apply Forall2_cons in Hdbs' as [Hfn _].
  rewrite (run_outcome ddl repr w fn fns o old_db) by done.
  rewrite (files_outcome_ok ddl repr w fn (options old_db) (fn :: fns) (old_db :: dbs));
    [done..| |done|done].
  constructor; [apply dict_eqb_refl|done].
Qed.

End run_ends.

(** ** Valid inputs and the views *)

Lemma valid_fragdb_spec ddl db :
  valid_fragdb ddl db = true ↔
  well_keyed db ∧ NoDup (record_titles db) ∧
  unique_ok (error_record_title_unique ddl) (error_record_titles db) = true.
Proof.
  unfold valid_fragdb, well_keyed.
  rewrite !andb_true_iff, !bool_decide_eq_true, forallb_forall.
  setoid_rewrite bool_decide_eq_true. setoid_rewrite <- list_elem_of_In. tauto.
Qed.

Lemma elem_of_titled_fragmentations db t a :
  (t, a) ∈ titled_fragmentations db → t ∈ record_titles db.
Proof.
  unfold titled_fragmentations, owned.
  intros (r & (f & Hp & _)%list_elem_of_bind & Hr)%list_elem_of_bind.
  case_decide; [|by apply elem_of_nil in Hp].
  apply list_elem_of_singleton in Hp as [= -> _].
  by apply (list_elem_of_fmap_2 (title ∘ cols)).
Qed.

Lemma filter_none {A} (P : A → Prop) `{∀ x, Decision (P x)} (l : list A) :
  (∀ x, x ∈ l → ¬ P x) → filter P l = [].
Proof.
  induction l as [|x l IH]; intros Hl; [done|].
  rewrite filter_cons_False, IH; [done| |apply Hl; left].
  intros y Hy. apply Hl. by right.
Qed.

Lemma fragmentations_of_app db1 db2 out t :
  titled_fragmentations out = titled_fragmentations db1 ++ titled_fragmentations db2 →
  fragmentations_of out t = fragmentations_of db1 t ++ fragmentations_of db2 t.
Proof. unfold fragmentations_of. intros ->. by rewrite filter_app, fmap_app. Qed.

Lemma fragmentations_of_absent db t : t ∉ record_titles db → fragmentations_of db t = [].
Proof.
  intros Ht. unfold fragmentations_of.
  rewrite filter_none; [done|]. intros [t' a] Hp. simpl. intros ->.
  by apply Ht, (elem_of_titled_fragmentations db t a).
Qed.

(** In a well keyed database every fragmentation shows once in the
    titled view. *)
Lemma titled_fragmentations_length db :
  well_keyed db → length (titled_fragmentations db) = length (fragmentation db).
Proof.
  intros [Hnd Hfk]. unfold titled_fragmentations.
  rewrite <- (length_fmap cols (fragmentation db)).
  assert (∀ f, f ∈ cols <$> fragmentation db → record_id f ∈ id <$> record db) as Hfk'.
  { intros f (f' & -> & Hf)%list_elem_of_fmap. by apply Hfk. }
  clear Hfk. induction (cols <$> fragmentation db) as [|f fs IH]; simpl.
  - by rewrite bind_nil_ext.
  - rewrite <- IH by (intros f' Hf'; apply Hfk'; by right).
    destruct (list_elem_of_fmap_1 _ _ _ (Hfk' f (list_elem_of_here _ _))) as (r0 & Hid & Hr0).
    change (record db ≫= λ r, owned r (f :: fs))
      with (record db ≫= λ r,
              (if decide (record_id f = id r) then [(title (cols r), attrs f)] else []) ++
              owned r fs).
    rewrite length_bind_app. f_equal.
    rewrite (bind_ext_in _
      (λ r, if decide (id r = id r0) then [(title (cols r), attrs f)] else [])).
    + by rewrite (bind_unique id (record db) r0).
    + intros r _. rewrite Hid. by destruct (decide (id r0 = id r)), (decide (id r = id r0)).
Qed.

Section frames.
Variable repr : pyval → string.

Lemma final_frame_output w o fn n old_db db r :
  files (env (final_frame repr w o fn n old_db db r)) !! output_path o = Some (Fragdb db).
Proof. apply lookup_insert_eq. Qed.

Lemma final_frame_other w o fn n old_db db r fn' :
  fn' ≠ output_path o →
  files (env (final_frame repr w o fn n old_db db r)) !! fn' = files w !! fn'.
Proof. intros Hne. by apply lookup_insert_ne. Qed.

End frames.

(** ** The options check and the duplicate check *)

Lemma dict_get_Some_keys k v (d : dict) : dict_get k d = Some v → k ∈ dict_keys d.
Proof.
  unfold dict_keys. induction d as [|[k' v'] d IH]; [done|]. simpl.
  case_decide as Hk; [intros _; rewrite Hk; left|intros ?; right; auto].
Qed.

Lemma mismatch_lines_spec repr ks d first_d :
  (∀ k, k ∈ ks → is_Some (dict_get k d) ∧ is_Some (dict_get k first_d)) →
  ∃ lines,
    mismatch_lines repr ks d first_d = inr lines ∧
    ∀ line, line ∈ lines ↔
      ∃ k v first_v, k ∈ ks ∧ dict_get k d = Some v ∧ dict_get k first_d = Some first_v ∧
                     v ≠ first_v ∧
                     line = "  " +:+ k +:+ ": " +:+ repr v +:+ " != " +:+ repr first_v.
Proof.
  induction ks as [|k ks IH]; intros Hks.
  - exists []. split; [done|]. intros line. split; [by intros ?%elem_of_nil|].
    by intros (k & v & first_v & ?%elem_of_nil & _).
  - destruct IH as (lines & Hlines & Hspec). { intros k' Hk'. apply Hks. by right. }
    destruct (Hks k (list_elem_of_here _ _)) as [[v Hv] [first_v Hfirst]].
    simpl. rewrite Hv, Hfirst, Hlines. eexists. split; [done|].
    intros line. case_decide as Hne.
    + rewrite elem_of_cons, Hspec. split.
      * intros [->|(k' & v' & first_v' & Hk' & H)].
        -- exists k, v, first_v. split_and!; [left|done..].
        -- exists k', v', first_v'. split; [by right|done].
      * intros (k' & v' & first_v' & [->|Hk']%elem_of_cons & Hv' & Hfirst' & Hne' & ->).
        -- left. congruence.
        -- right. by exists k', v', first_v'.
    + rewrite Hspec. split.
      * intros (k' & v' & first_v' & Hk' & H). exists k', v', first_v'. split; [by right|done].
      * intros (k' & v' & first_v' & [->|Hk']%elem_of_cons & Hv' & Hfirst' & Hne' & ->).
        -- destruct Hne. congruence.
        -- by exists k', v', first_v'.
Qed.

(** With the same fields on both sides, options that are not equal end
    the check with one line for each field whose values differ. *)
Lemma check_options_mismatch_differ repr fn opts first_filename first_options :
  dict_keys (to_dict opts) = dict_keys (to_dict first_options) →
  dict_eqb (to_dict opts) (to_dict first_options) = false →
  ∃ lines,
    check_options_mismatch repr fn opts first_filename first_options =
      inl (SystemExit (("Cannot merge. The options in " +:+ repr (PyStr fn) +:+
                        " differ from " +:+ repr (PyStr first_filename) +:+ ".") :: lines)) ∧
    ∀ line, line ∈ lines ↔
      ∃ k v first_v, dict_get k (to_dict opts) = Some v ∧
                     dict_get k (to_dict first_options) = Some first_v ∧
                     v ≠ first_v ∧
                     line = "  " +:+ k +:+ ": " +:+ repr v +:+ " != " +:+ repr first_v.
Proof.
  intros Hkeys Hne. unfold check_options_mismatch. rewrite Hne.
  destruct (mismatch_lines_spec repr (dict_keys (to_dict opts)) (to_dict opts)
              (to_dict first_options)) as (lines & -> & Hspec).
  { intros k Hk. split; apply dict_get_keys; [done|by rewrite <- Hkeys]. }
  exists lines. split; [done|]. intros line. rewrite Hspec. split.
  - intros (k & v & first_v & _ & H). by exists k, v, first_v.
  - intros (k & v & first_v & Hv & H). exists k, v, first_v.
    split; [by eapply dict_get_Some_keys|done].
Qed.

Lemma elem_of_duplicate_titles t old_records new_records :
  t ∈ duplicate_titles old_records new_records ↔
  t ∈ (title ∘ cols) <$> old_records ∧ t ∈ (title ∘ cols) <$> new_records.
Proof.
  unfold duplicate_titles. rewrite list_elem_of_bind. split.
  - intros (r & (nr & Ht & Hnr)%list_elem_of_bind & Hr).
    case_bool_decide as Heq; [|by apply elem_of_nil in Ht].
    apply list_elem_of_singleton in Ht as ->. split.
    + by apply (list_elem_of_fmap_2 (title ∘ cols)).
    + rewrite Heq. by apply (list_elem_of_fmap_2 (title ∘ cols)).
  - intros [(r & -> & Hr)%list_elem_of_fmap (nr & Heq & Hnr)%list_elem_of_fmap].
    exists r. split; [|done]. apply list_elem_of_bind. exists nr. split; [|done].
    simpl in Heq. rewrite bool_decide_eq_true_2 by done. left.
Qed.

Lemma files_outcome_ext ddl repr w w' first_filename first_options fns out :
  (∀ fn, fn ∈ fns → files w !! fn = files w' !! fn) →
  open_fragdb_error w = open_fragdb_error w' →
  attach_error w = attach_error w' →
  select_order w = select_order w' →
  files_outcome ddl repr w first_filename first_options fns out =
  files_outcome ddl repr w' first_filename first_options fns out.
Proof.
  intros Hfiles Hopen Hatt Hord. revert out. induction fns as [|fn fns IH]; intros out; [done|].
  simpl. unfold file_outcome. rewrite <- (Hfiles fn), Hopen, Hatt, Hord by left.
  destruct (files w !! fn) as [[old_db| |]|]; try done.
  destruct (check_options_mismatch _ _ _ _ _); [done|].
  destruct (copy_outcome _ _ _ _ _ _ _) as [out' [e|[]]]; [done|].
  apply IH. intros fn' Hfn'. apply Hfiles. by right.
Qed.

(** ** Record titles after a run that ends well *)

(** A loop that ends well has met no title twice: when the titles are
    distinct within the output and within each input, they are distinct
    over all of them. *)
Lemma files_outcome_titles ddl repr w first_filename first_options fns dbs out out' :
  files_outcome ddl repr w first_filename first_options fns out = (out', inr ()) →
  inputs_at w fns dbs →
  Forall (λ db, NoDup (record_titles db)) dbs →
  NoDup (record_titles out) →
  NoDup (record_titles out ++ (dbs ≫= record_titles)).
Proof.
  intros Hloop Hdbs. revert out Hloop.
  induction Hdbs as [|fn db fns dbs Hfn _ IH]; intros out Hloop Hnds Hnd.
  - simpl. by rewrite app_nil_r.
  - apply Forall_cons in Hnds as [Hdb Hnds]. simpl in Hloop. unfold file_outcome in Hloop.
    rewrite Hfn in Hloop.
    destruct (check_options_mismatch _ _ _ _ _) as [e|[]]; [done|].
    destruct (copy_outcome _ _ _ _ _ _ _) as [out1 [e|[]]] eqn:Hcopy; [done|].
    apply copy_outcome_inv in Hcopy as (-> & _ & Hdup).
    rewrite bind_cons, app_assoc, <- merged_record_titles. apply IH; [done..|].
    rewrite merged_record_titles. apply NoDup_app. split_and!; [done| |done].
    intros t Ht Ht'.
    assert (t ∈ duplicate_titles (record db) (record out)) as Hin
      by (by apply elem_of_duplicate_titles).
    rewrite Hdup in Hin. by apply elem_of_nil in Hin.
Qed.

Lemma run_inr_titles ddl repr w fns o f' dbs :
  output_path o ∉ fns →
  run ddl repr w fns o = (f', inr ()) →
  inputs_at w fns dbs →
  Forall (λ db, NoDup (record_titles db)) dbs →
  NoDup (dbs ≫= record_titles).
Proof.
  intros Hout Hrun Hdbs Hnds.
  destruct (run_inr_inv ddl repr w fns o f' Hout Hrun)
    as (fn & fns' & old_db & -> & Hfn & Hdir & Hconn).
  rewrite (run_outcome ddl repr w fn fns' o old_db) in Hrun by done.
  destruct (files_outcome _ _ _ _ _ _ _) as [db r] eqn:Hloop.
  injection Hrun as _ ->.
  apply (files_outcome_titles _ _ _ _ _ _ _ _ _ Hloop Hdbs Hnds). apply NoDup_nil_2.
Qed.

(** ** Renumbering *)

Lemma bind_app_Permutation {A B} (f g : A → list B) (l : list A) :
  (l ≫= λ x, f x ++ g x) ≡ₚ (l ≫= f) ++ (l ≫= g).
Proof.
  induction l as [|x l IH]; [done|]. rewrite !bind_cons, IH.
  rewrite <- !app_assoc. f_equiv. rewrite !app_assoc. f_equiv. apply Permutation_app_comm.
Qed.

(** A join of child rows to parents with distinct keys, where every
    child has its parent, lists every child once. *)
Lemma join_covers {A B C K} `{EqDecision K} (key : A → K) (ref : B → K) (h : B → C)
    (parents : list A) (children : list B) :
  NoDup (key <$> parents) →
  (∀ c, c ∈ children → ref c ∈ key <$> parents) →
  (parents ≫= λ p, children ≫= λ c, if decide (ref c = key p) then [h c] else [])
  ≡ₚ h <$> children.
Proof.
  intros Hnd. induction children as [|c cs IH]; intros Hfk.
  - by rewrite bind_nil_ext.
  - destruct (list_elem_of_fmap_1 _ _ _ (Hfk c (list_elem_of_here _ _))) as (p0 & Hp0 & Hin).
    change (parents ≫= λ p, (c :: cs) ≫= λ c, if decide (ref c = key p) then [h c] else [])
      with (parents ≫= λ p,
              (if decide (ref c = key p) then [h c] else []) ++
              (cs ≫= λ c, if decide (ref c = key p) then [h c] else [])).
    rewrite bind_app_Permutation, IH by (intros c' Hc'; apply Hfk; by right).
    rewrite (bind_ext_in _ (λ p, if decide (key p = key p0) then [h c] else [])).
    + by rewrite (bind_unique key parents p0).
    + intros p _. rewrite Hp0.
      by destruct (decide (key p0 = key p)), (decide (key p = key p0)).
Qed.

Lemma renumber_lookup olds news j r nr :
  NoDup (id <$> olds) → olds !! j = Some r → news !! j = Some nr →
  renumber olds news (id r) = id nr.
Proof.
  intros Hnd Hr Hnr. unfold renumber.
  assert (list_find (λ r', id r' = id r) olds = Some (j, r)) as ->.
  { apply list_find_Some. split_and!; [done..|]. intros j' r' Hr' Hlt Hid.
    assert (j' = j); [|lia].
    apply (NoDup_lookup (id <$> olds) j' j (id r) Hnd); rewrite list_lookup_fmap.
    - rewrite Hr'. simpl. by rewrite Hid.
    - by rewrite Hr. }
  by rewrite Hnr.
Qed.

(** The records a fresh output receives are those of the input under
    [renumber], and its fragmentations are those of the input with the
    reference renumbered in the same way. *)
Lemma merged_fresh_renumbered opts db :
  well_keyed db → NoDup (record_titles db) →
  let out := merged (init_fragdb opts) db in
  let new_id := renumber (record db) (record out) in
  record out = (λ r, Row (new_id (id r)) (cols r)) <$> record db ∧
  cols <$> fragmentation out
    ≡ₚ (λ f, Fragmentation (new_id (record_id (cols f))) (attrs (cols f))) <$> fragmentation db.
Proof.
  intros [Hnd Hfk] Htitles. cbv zeta.
  remember (record (merged (init_fragdb opts) db)) as news eqn:Hnews.
  set (new_id := renumber (record db) news).
  assert (cols <$> news = cols <$> record db) as Hcols
    by (rewrite Hnews; apply cols_insert_rows).
  assert (news = (λ r, Row (new_id (id r)) (cols r)) <$> record db) as Hrec.
  { apply list_eq. intros j. rewrite list_lookup_fmap.
    pose proof (f_equal (.!! j) Hcols) as Hj. rewrite !list_lookup_fmap in Hj.
    destruct (news !! j) as [nr|] eqn:Hnr, (record db !! j) as [r|] eqn:Hr;
      simpl in Hj |- *; try done. injection Hj as Hj. f_equal.
    unfold new_id. rewrite (renumber_lookup _ _ j r nr) by done.
    destruct nr as [i c]. simpl in *. by rewrite Hj. }
  split; [done|].
  assert (cols <$> fragmentation (merged (init_fragdb opts) db) =
          select_fragmentation news (record db) (fragmentation db)) as ->
    by (rewrite Hnews; apply cols_insert_rows).
  rewrite Hrec at 1. unfold select_fragmentation.
  rewrite (bind_ext_in _
    (λ f, [Fragmentation (new_id (record_id (cols f))) (attrs (cols f))])).
  { clear Hfk. induction (fragmentation db) as [|f fs IH]; [done|].
    rewrite bind_cons, fmap_cons. simpl. by rewrite IH. }
  intros f Hf.
  destruct (list_elem_of_fmap_1 _ _ _ (Hfk f Hf)) as (r0 & Hid & Hr0).
  rewrite (bind_ext_in _
    (λ r, if decide (id r = id r0) then
       ((λ r', Row (new_id (id r')) (cols r')) <$> record db) ≫= λ nr,
          if bool_decide (title (cols r) = title (cols nr))
          then [Fragmentation (id nr) (attrs (cols f))] else []
     else [])).
  2:{ intros r _. case_decide as Hd.
      - apply bind_ext_in. intros nr _.
        rewrite (bool_decide_eq_true_2 (record_id (cols f) = id r)) by congruence.
        by rewrite andb_true_r.
      - apply bind_nil_ext. intros nr _.
        rewrite (bool_decide_eq_false_2 (record_id (cols f) = id r)) by congruence.
        by rewrite andb_false_r. }
  rewrite (bind_unique id (record db) r0) by done.
  rewrite list_fmap_bind.
  rewrite (bind_ext_in _
    (λ r, if decide ((title ∘ cols) r = (title ∘ cols) r0)
          then [Fragmentation (new_id (id r)) (attrs (cols f))] else [])).
  2:{ intros r _. simpl. case_decide as Ht.
      - by rewrite bool_decide_eq_true_2.
      - by rewrite bool_decide_eq_false_2. }
  rewrite (bind_unique (title ∘ cols) (record db) r0) by done. by rewrite Hid.
Qed.

(** * The properties of the specification *)

Section claims.
Variable ddl : index_ddl.
Variable repr : pyval → string.

(** C1, union completeness, as amended.  Two valid inputs [A] and [B]
    with equal options, no record title in common and error record
    titles that, taken together, satisfy the uniqueness the index
    definitions declare on them, are merged, in this order, to the end:
    the run returns, the record titles of the output are those of [A]
    followed by those of [B], and for each of these titles the output
    holds the fragmentations the title had in its input (as a multiset
    of attribute rows).  The file system is assumed to let the run
    create the output and attach the inputs. *)
Theorem union_completeness w o fa fb A B :
  inputs_at w [fa; fb] [A; B] →
  cooperative w o [fa; fb] →
  valid_fragdb ddl A = true →
  valid_fragdb ddl B = true →
  dict_eqb (to_dict (options B)) (to_dict (options A)) = true →
  (∀ t, t ∈ record_titles A → t ∉ record_titles B) →
  unique_ok (error_record_title_unique ddl)
    (error_record_titles A ++ error_record_titles B) = true →
  ∃ f' out,
    run ddl repr w [fa; fb] o = (f', inr ()) ∧
    files (env f') !! output_path o = Some (Fragdb out) ∧
    record_titles out = record_titles A ++ record_titles B ∧
    (∀ t, t ∈ record_titles A → fragmentations_of out t ≡ₚ fragmentations_of A t) ∧
    (∀ t, t ∈ record_titles B → fragmentations_of out t ≡ₚ fragmentations_of B t).
Proof.
  intros Hin Hcoop (_ & HA & _)%valid_fragdb_spec (_ & HB & _)%valid_fragdb_spec
    Hopts Hdisj Herr.
  assert (NoDup ([A; B] ≫= record_titles)) as Hnd.
  { simpl. rewrite app_nil_r. apply NoDup_app. by split_and!. }
  eexists _, (merge_all (options A) [A; B]). split_and!.
  - apply (run_merges ddl repr w fa [fb] o A [B]); [done..| |done|].
    + by constructor.
    + simpl. by rewrite app_nil_r.
  - apply final_frame_output.
  - rewrite merge_all_record_titles. simpl. by rewrite app_nil_r.
  - intros t Ht.
    rewrite (fragmentations_of_app A B), (fragmentations_of_absent B), app_nil_r; [done|auto|].
    rewrite merge_all_titled_fragmentations by done. simpl. by rewrite app_nil_r.
  - intros t Ht.
    rewrite (fragmentations_of_app A B), (fragmentations_of_absent A); [done| |].
    + intros HtA. by apply (Hdisj t).
    + rewrite merge_all_titled_fragmentations by done. simpl. by rewrite app_nil_r.
Qed.

(** C7, a single input.  Merging one valid database alone returns, and
    the output holds its options and its error records column for column
    and in order, its records in order under new identifiers, and its
    fragmentations, as a multiset, with the parent reference renumbered
    as the records were and every other column unchanged; seen with the
    title of the parent in place of the reference, the fragmentations of
    the output are those of the input. *)
Theorem single_input_identity w o fn D :
  inputs_at w [fn] [D] →
  cooperative w o [fn] →
  valid_fragdb ddl D = true →
  ∃ f' out,
    run ddl repr w [fn] o = (f', inr ()) ∧
    files (env f') !! output_path o = Some (Fragdb out) ∧
    options out = options D ∧
    cols <$> error_record out = cols <$> error_record D ∧
    record out =
      (λ r, Row (renumber (record D) (record out) (id r)) (cols r)) <$> record D ∧
    cols <$> fragmentation out ≡ₚ
      (λ f, Fragmentation (renumber (record D) (record out) (record_id (cols f)))
                          (attrs (cols f))) <$> fragmentation D ∧
    titled_fragmentations out = titled_fragmentations D ∧
    well_keyed out.
Proof.
  intros Hin Hcoop (HD & Hnd & Herr)%valid_fragdb_spec.
  assert (NoDup ([D] ≫= record_titles)) as Hnd' by (simpl; by rewrite app_nil_r).
  destruct (merged_fresh_renumbered (options D) D HD Hnd) as [Hrec Hfrag].
  eexists _, (merge_all (options D) [D]). split_and!.
  - apply (run_merges ddl repr w fn [] o D []); [done..|constructor|done|].
    simpl. by rewrite app_nil_r.
  - apply final_frame_output.
  - apply merge_all_options.
  - rewrite merge_all_error_record. simpl. by rewrite app_nil_r.
  - exact Hrec.
  - exact Hfrag.
  - rewrite merge_all_titled_fragmentations by done. simpl. by rewrite app_nil_r.
  - apply merge_all_well_keyed.
Qed.

(** C2, referential integrity.  After a run that returns, every
    fragmentation of the output refers to exactly one record of the
    output, and the title of that record is the title of a record that
    owned a fragmentation with these attributes in one of the inputs;
    when record titles are unique within each input, the fragmentations
    of the output with the titles of their records are, one for one,
    those of the inputs with the titles of theirs. *)
Theorem referential_integrity w fns o f' :
  output_path o ∉ fns →
  run ddl repr w fns o = (f', inr ()) →
  ∃ dbs out,
    inputs_at w fns dbs ∧
    files (env f') !! output_path o = Some (Fragdb out) ∧
    (∀ f, f ∈ fragmentation out →
       ∃ r, r ∈ record out ∧ id r = record_id (cols f) ∧
            (∀ r', r' ∈ record out → id r' = record_id (cols f) → r' = r) ∧
            originates dbs (title (cols r)) (attrs (cols f))) ∧
    (Forall (λ db, NoDup (record_titles db)) dbs →
     titled_fragmentations out = dbs ≫= titled_fragmentations).
Proof.
  intros Hout Hrun.
  destruct (run_inr ddl repr w fns o f' Hout Hrun) as (fn & old_db & dbs & _ & Hdbs & Hf' & _).
  exists (old_db :: dbs), (merge_all (options old_db) (old_db :: dbs)).
  split_and!; [done|rewrite Hf'; apply final_frame_output| |].
  - intros f Hf.
    destruct (merge_all_well_keyed (options old_db) (old_db :: dbs)) as [Hnd Hfk].
    destruct (list_elem_of_fmap_1 _ _ _ (Hfk f Hf)) as (r & Hid & Hr).
    exists r. split_and!; [done..| |].
    + intros r' Hr' Hid'. apply (NoDup_fmap_eq id _ _ _ Hnd); [done..|congruence].
    + by apply (merge_all_originates (options old_db)).
  - intros Hnds. apply merge_all_titled_fragmentations.
    by apply (run_inr_titles ddl repr w fns o f').
Qed.

(** C5, count accounting.  The report of a run that returns gives the
    number of file names, the sum of the inputs' record counts and the
    sum of their error record counts; for two inputs with two records and
    one record and no error records it ends with the line of the
    scenario. *)
Theorem count_accounting w fns o f' :
  output_path o ∉ fns →
  run ddl repr w fns o = (f', inr ()) →
  ∃ dbs,
    inputs_at w fns dbs ∧
    reported f' =
      notice repr o ++
      ["Merge complete. #files: " +:+ str_of_nat (length fns) +:+
       " #records: " +:+ str_of_nat (sum_list ((length ∘ record) <$> dbs)) +:+
       " #error records: " +:+ str_of_nat (sum_list ((length ∘ error_record) <$> dbs))] ∧
    (∀ A B, dbs = [A; B] →
       length (record A) = 2 → length (record B) = 1 →
       error_record A = [] → error_record B = [] →
       last (reported f') = Some "Merge complete. #files: 2 #records: 3 #error records: 0").
Proof.
  intros Hout Hrun.
  destruct (run_inr ddl repr w fns o f' Hout Hrun) as (fn & old_db & dbs & _ & Hdbs & -> & _).
  exists (old_db :: dbs).
  assert (reported (final_frame repr w o fn (length fns) old_db
                      (merge_all (options old_db) (old_db :: dbs)) (inr ())) =
          notice repr o ++
          ["Merge complete. #files: " +:+ str_of_nat (length fns) +:+
           " #records: " +:+
           str_of_nat (sum_list ((length ∘ record) <$> old_db :: dbs)) +:+
           " #error records: " +:+
           str_of_nat (sum_list ((length ∘ error_record) <$> old_db :: dbs))]) as Hrep.
  { unfold final_frame, merge_complete. cbn [reported].
    by rewrite merge_all_length_record, merge_all_length_error_record. }
  split_and!; [done..|].
  intros A B [= -> ->] HA HB HeA HeB. rewrite Hrep, last_snoc.
  apply Forall2_length in Hdbs. rewrite Hdbs. cbn [fmap list_fmap sum_list sum_list_with compose].
  by rewrite HA, HB, HeA, HeB.
Qed.

Lemma inputs_at_inj w fns dbs dbs' : inputs_at w fns dbs → inputs_at w fns dbs' → dbs = dbs'.
Proof.
  intros H. revert dbs'. induction H as [|fn db fns dbs Hfn _ IH]; intros dbs' H'.
  - by apply Forall2_nil_inv_l in H'.
  - apply Forall2_cons_inv_l in H' as (db' & dbs'' & Hfn' & H' & ->).
    rewrite Hfn in Hfn'. injection Hfn' as <-. f_equal. by apply IH.
Qed.

(** C9, unique error record titles.  Where the index definitions
    declare [error_record.title] unique, as those of the specification
    do, no error record title occurs twice in the output of a run that
    returns, whatever the inputs were: the titles of the output are
    those of the inputs, in order, and the first statement of the copy
    has refused every input that would have repeated one. *)
Theorem error_record_titles_unique w fns o f' :
  error_record_title_unique ddl = true →
  output_path o ∉ fns →
  run ddl repr w fns o = (f', inr ()) →
  ∃ dbs out,
    inputs_at w fns dbs ∧
    files (env f') !! output_path o = Some (Fragdb out) ∧
    error_record_titles out = dbs ≫= error_record_titles ∧
    NoDup (error_record_titles out).
Proof.
  intros Hddl Hout Hrun.
  destruct (run_inr ddl repr w fns o f' Hout Hrun) as (fn & old_db & dbs & _ & Hdbs & Hf' & _).
  destruct (run_inr_inv ddl repr w fns o f' Hout Hrun)
    as (fn' & fns' & old_db' & -> & Hfn & Hdir & Hconn).
  rewrite (run_outcome ddl repr w fn' fns' o old_db') in Hrun by done.
  destruct (files_outcome _ _ _ _ _ _ _) as [out r] eqn:Hloop.
  injection Hrun as <- ->.
  exists (old_db :: dbs), out.
  assert (out = merge_all (options old_db) (old_db :: dbs)) as Hmerge.
  { apply (f_equal (λ f, files (env f) !! output_path o)) in Hf'.
    rewrite !final_frame_output in Hf'. by injection Hf'. }
  split_and!; [done|apply final_frame_output|..].
  - rewrite Hmerge. apply merge_all_error_record_titles.
  - assert (unique_ok (error_record_title_unique ddl)
              (error_record_titles (init_fragdb (options old_db'))) = true) as Herr
      by apply unique_ok_NoDup, NoDup_nil_2.
    apply (files_outcome_error_titles ddl repr _ _ _ _ _ _ Hloop) in Herr.
    rewrite Hddl in Herr. by apply bool_decide_eq_true in Herr.
Qed.


(** A run on a prefix of the file names that returns fixes how the run
    on all of them goes: the loop continues from the output the prefix
    left. *)
Lemma run_continues w o pre rest f1 :
  output_path o ∉ pre ++ rest →
  run ddl repr w pre o = (f1, inr ()) →
  ∃ fn old_db out1,
    head pre = Some fn ∧ files w !! fn = Some (Fragdb old_db) ∧
    f1 = final_frame repr w o fn (length pre) old_db out1 (inr ()) ∧
    run ddl repr w (pre ++ rest) o =
    let '(out2, r) := files_outcome ddl repr w fn (options old_db) rest out1 in
    (final_frame repr w o fn (length (pre ++ rest)) old_db out2 r, r).
Proof.
  intros Hout Hrun.
  assert (output_path o ∉ pre) as Hpre.
  { intros Hin. apply Hout, elem_of_app. by left. }
  destruct (run_inr_inv ddl repr w pre o f1 Hpre Hrun)
    as (fn & pre' & old_db & -> & Hfn & Hdir & Hconn).
  rewrite (run_outcome ddl repr w fn pre' o old_db) in Hrun by done.
  destruct (files_outcome ddl repr w fn (options old_db) (fn :: pre') _)
    as [out1 r1] eqn:Hloop.
  injection Hrun as <- ->. exists fn, old_db, out1. split_and!; [done..|].
  rewrite <- app_comm_cons in Hout |- *.
  rewrite (run_outcome ddl repr w fn (pre' ++ rest) o old_db) by done.
  by rewrite app_comm_cons, files_outcome_app, Hloop.
Qed.


(** C4, options enforcement.  When the file names before [fn] merge to
    the end and the options of the database at [fn], over the same
    fields, are not equal to those of the first, the run ends in [die]
    there: the first line names the file and the first file, the other
    lines are exactly the lines [field: value != first value] of the
    fields whose values differ, and the output is left as the earlier
    inputs made it. *)
Theorem options_enforcement w o pre fn post fa A B f1 :
  output_path o ∉ pre ++ fn :: post →
  run ddl repr w pre o = (f1, inr ()) →
  head pre = Some fa →
  files w !! fa = Some (Fragdb A) →
  files w !! fn = Some (Fragdb B) →
  dict_keys (to_dict (options B)) = dict_keys (to_dict (options A)) →
  dict_eqb (to_dict (options B)) (to_dict (options A)) = false →
  ∃ f2 lines,
    run ddl repr w (pre ++ fn :: post) o =
      (f2, inl (SystemExit (("Cannot merge. The options in " +:+ repr (PyStr fn) +:+
                             " differ from " +:+ repr (PyStr fa) +:+ ".") :: lines))) ∧
    (∀ line, line ∈ lines ↔
       ∃ k v first_v, dict_get k (to_dict (options B)) = Some v ∧
                      dict_get k (to_dict (options A)) = Some first_v ∧
                      v ≠ first_v ∧
                      line = "  " +:+ k +:+ ": " +:+ repr v +:+ " != " +:+ repr first_v) ∧
    files (env f2) !! output_path o = files (env f1) !! output_path o.
Proof.
  intros Hout Hrun1 Hhead Hfa Hfn Hkeys Hne.
  destruct (run_continues w o pre (fn :: post) f1 Hout Hrun1)
    as (fa' & A' & out1 & Hhead' & Hfa' & -> & Hrun).
  rewrite Hhead in Hhead'. injection Hhead' as <-.
  rewrite Hfa in Hfa'. injection Hfa' as <-.
  destruct (check_options_mismatch_differ repr fn (options B) fa (options A) Hkeys Hne)
    as (lines & Hcheck & Hlines).
  cbn [files_outcome] in Hrun. unfold file_outcome in Hrun. rewrite Hfn, Hcheck in Hrun.
  eexists _, lines. split_and!; [exact Hrun|exact Hlines|].
  by rewrite !final_frame_output.
Qed.

(** C6, no rollback.  When the file names before [fn], which hold the
    databases [dbs], merge to the end and the run on all file names
    fails, whatever the exception, the output file still holds every row
    of [dbs]: their error records and their records are the first rows
    of its tables, column for column, and their fragmentations are among
    its fragmentations under the titles of their records; and each table
    of the output that the run on the earlier file names leaves is a
    prefix of the table in the final output, identifiers included. *)
Theorem prior_inputs_stay_committed w o pre fn post f1 f2 e dbs :
  output_path o ∉ pre ++ fn :: post →
  inputs_at w pre dbs →
  run ddl repr w pre o = (f1, inr ()) →
  run ddl repr w (pre ++ fn :: post) o = (f2, inl e) →
  ∃ out1 out2,
    files (env f1) !! output_path o = Some (Fragdb out1) ∧
    files (env f2) !! output_path o = Some (Fragdb out2) ∧
    grows out1 out2 ∧
    (dbs ≫= λ db, cols <$> error_record db) `prefix_of` (cols <$> error_record out2) ∧
    (dbs ≫= λ db, cols <$> record db) `prefix_of` (cols <$> record out2) ∧
    (Forall (λ db, NoDup (record_titles db)) dbs →
     (dbs ≫= titled_fragmentations) `sublist_of` titled_fragmentations out2).
Proof.
  intros Hout Hdbs Hrun1 Hrun2.
  assert (output_path o ∉ pre) as Hpre.
  { intros Hin. apply Hout, elem_of_app. by left. }
  pose proof (run_inr_titles ddl repr w pre o f1 dbs Hpre Hrun1 Hdbs) as Htitles.
  destruct (run_inr ddl repr w pre o f1 Hpre Hrun1)
    as (fa' & A' & dbs' & _ & Hdbs' & Hf1 & _).
  rewrite <- (inputs_at_inj _ _ _ _ Hdbs Hdbs') in Hf1. clear Hdbs'.
  destruct (run_continues w o pre (fn :: post) f1 Hout Hrun1)
    as (fa & A & out1 & _ & _ & Hf1' & Hrun).
  assert (out1 = merge_all (options A') dbs) as ->.
  { rewrite Hf1 in Hf1'. apply (f_equal (λ f, files (env f) !! output_path o)) in Hf1'.
    rewrite !final_frame_output in Hf1'. by injection Hf1'. }
  rewrite Hrun in Hrun2.
  pose proof (files_outcome_grows ddl repr w fa (options A) (fn :: post)
                (merge_all (options A') dbs)) as Hgrows.
  destruct (files_outcome ddl repr w fa (options A) (fn :: post) _) as [out2 r].
  injection Hrun2 as <- _. cbn [fst] in Hgrows.
  exists (merge_all (options A') dbs), out2.
  pose proof Hgrows as (_ & Herr & Hrec & _).
  split_and!; [rewrite Hf1; apply final_frame_output|apply final_frame_output|done|..].
  - rewrite <- (merge_all_error_record (options A')).
    destruct Herr as [k Hk]. rewrite Hk, fmap_app. by eexists.
  - rewrite <- (merge_all_record (options A')).
    destruct Hrec as [k Hk]. rewrite Hk, fmap_app. by eexists.
  - intros Hnds. rewrite <- (merge_all_titled_fragmentations (options A')) by auto.
    by apply grows_titled_fragmentations.
Qed.

(** C8, a fresh output.  Whatever file lies at the output path, or none,
    [open_output_fragdb] returns a connection to a new database with
    empty tables, which is then what the path holds; [os.unlink] removes
    a file that is there and raises [FileNotFoundError] when there is
    none, which is not an error of [open_output_fragdb]; and a run whose
    first input opens goes the same way, to the same final state,
    whether some file lay at the output path or none did. *)
Theorem output_created_fresh w o fn fns old_db x f opts out :
  files (env f) !! out ≠ Some Directory →
  connect_error (env f) out = None →
  files w !! fn = Some (Fragdb old_db) →
  output_path o ∉ fn :: fns →
  x ≠ Directory →
  connect_error w (output_path o) = None →
  open_output_fragdb out opts f =
    (set_env (set_files (env f) (<[out := Fragdb (init_fragdb opts)]> (files (env f)))) f,
     inr (Connection out (init_fragdb opts) None)) ∧
  (files (env f) !! out = None → os_unlink out f = (f, inl (FileNotFoundError out))) ∧
  (is_Some (files (env f) !! out) →
   os_unlink out f = (set_env (set_files (env f) (delete out (files (env f)))) f, inr ())) ∧
  run ddl repr (set_files w (<[output_path o := x]> (files w))) (fn :: fns) o =
  run ddl repr (set_files w (delete (output_path o) (files w))) (fn :: fns) o.
Proof.
  intros Hdir Hconn Hfn Hout Hx Hconnw. split_and!.
  - unfold open_output_fragdb, os_unlink, create_fragdb. py_unfold.
    destruct (files (env f) !! out) as [[]|] eqn:Hf; try done; simpl;
      rewrite Hconn; simpl; rewrite ?lookup_delete_eq, ?Hf; simpl;
      by rewrite ?insert_delete_eq.
  - intros Hnone. unfold os_unlink. by rewrite Hnone.
  - intros [y Hy]. unfold os_unlink. rewrite Hy. by destruct y.
  - pose proof Hout as [Hne Hout']%not_elem_of_cons.
    set (w1 := set_files w (<[output_path o := x]> (files w))).
    set (w2 := set_files w (delete (output_path o) (files w))).
    assert (files w1 !! fn = Some (Fragdb old_db)) as Hfn1
      by (unfold w1, set_files; cbn [files]; by rewrite lookup_insert_ne).
    assert (files w2 !! fn = Some (Fragdb old_db)) as Hfn2
      by (unfold w2, set_files; cbn [files]; by rewrite lookup_delete_ne).
    assert (files w1 !! output_path o ≠ Some Directory) as Hdir1
      by (unfold w1, set_files; cbn [files]; rewrite lookup_insert_eq; by intros [= ->]).
    assert (files w2 !! output_path o ≠ Some Directory) as Hdir2
      by (unfold w2, set_files; cbn [files]; by rewrite lookup_delete_eq).
    rewrite (run_outcome ddl repr w1 fn fns o old_db Hfn1 Hout Hdir1 Hconnw).
    rewrite (run_outcome ddl repr w2 fn fns o old_db Hfn2 Hout Hdir2 Hconnw).
    rewrite (files_outcome_ext ddl repr w1 w2); [|
      intros fn' Hfn'; unfold w1, w2, set_files; cbn [files];
      assert (output_path o ≠ fn') by (by intros <-);
      by rewrite lookup_insert_ne, lookup_delete_ne by done|done..].
    destruct (files_outcome _ _ _ _ _ _ _) as [db r]. f_equal.
    unfold final_frame, w1, w2, set_files.
    cbn [files open_fragdb_error connect_error attach_error select_order].
    by rewrite insert_insert_eq, insert_delete_eq.
Qed.


End claims.

(** * The properties on the example databases *)

Lemma union_completeness_witness :
  ∃ f' out,
    run (IndexDdl true true) ex_repr ex_world ["input1.fragdb"; "input2.fragdb"] None
      = (f', inr ()) ∧
    files (env f') !! "merged.fragdb" = Some (Fragdb out) ∧
    record_titles out = ["mol1"; "mol2"; "mol3"] ∧
    (∀ t, t ∈ record_titles ex_input1 →
          fragmentations_of out t ≡ₚ fragmentations_of ex_input1 t) ∧
    (∀ t, t ∈ record_titles ex_input2 →
          fragmentations_of out t ≡ₚ fragmentations_of ex_input2 t).
Proof.
  apply (union_completeness (IndexDdl true true) ex_repr ex_world None "input1.fragdb" "input2.fragdb"
           ex_input1 ex_input2).
  - repeat constructor.
  - split_and!; [|done..|repeat constructor].
    apply (bool_decide_unpack _). vm_compute. exact I.
  - reflexivity.
  - reflexivity.
  - reflexivity.
  - intros t Ht. apply (bool_decide_unpack _).
    apply list_elem_of_In in Ht. simpl in Ht.
    destruct Ht as [<-|[<-|[]]]; vm_compute; exact I.
  - reflexivity.
Defined.


Lemma single_input_identity_witness :
  ∃ f' out,
    run (IndexDdl true true) ex_repr ex_world ["input1.fragdb"] (Some "out.fragdb")
      = (f', inr ()) ∧
    files (env f') !! "out.fragdb" = Some (Fragdb out) ∧
    options out = options ex_input1 ∧
    cols <$> error_record out = cols <$> error_record ex_input1 ∧
    record out =
      (λ r, Row (renumber (record ex_input1) (record out) (id r)) (cols r))
        <$> record ex_input1 ∧
    cols <$> fragmentation out ≡ₚ
      (λ f, Fragmentation (renumber (record ex_input1) (record out) (record_id (cols f)))
                          (attrs (cols f))) <$> fragmentation ex_input1 ∧
    titled_fragmentations out = titled_fragmentations ex_input1 ∧
    well_keyed out.
Proof.
  apply (single_input_identity (IndexDdl true true) ex_repr ex_world (Some "out.fragdb")
           "input1.fragdb" ex_input1).
  - repeat constructor.
  - split_and!; [|done..|repeat constructor].
    apply (bool_decide_unpack _). vm_compute. exact I.
  - reflexivity.
Defined.

Lemma referential_integrity_witness :
  ∃ dbs out,
    inputs_at ex_world ["input1.fragdb"; "input2.fragdb"] dbs ∧
    files (env (run (IndexDdl true true) ex_repr ex_world
                  ["input1.fragdb"; "input2.fragdb"] None).1) !! "merged.fragdb"
      = Some (Fragdb out) ∧
    (∀ f, f ∈ fragmentation out →
       ∃ r, r ∈ record out ∧ id r = record_id (cols f) ∧
            (∀ r', r' ∈ record out → id r' = record_id (cols f) → r' = r) ∧
            originates dbs (title (cols r)) (attrs (cols f))) ∧
    (Forall (λ db, NoDup (record_titles db)) dbs →
     titled_fragmentations out = dbs ≫= titled_fragmentations).
Proof.
  apply (referential_integrity (IndexDdl true true) ex_repr ex_world
           ["input1.fragdb"; "input2.fragdb"] None).
  - apply (bool_decide_unpack _). vm_compute. exact I.
  - vm_compute. reflexivity.
Defined.


Lemma options_enforcement_witness :
  ∃ f2 lines,
    run (IndexDdl true true) ex_repr ex_world
      (["input1.fragdb"] ++ "other.fragdb" :: ["input2.fragdb"]) None =
      (f2, inl (SystemExit (("Cannot merge. The options in " +:+
                             ex_repr (PyStr "other.fragdb") +:+ " differ from " +:+
                             ex_repr (PyStr "input1.fragdb") +:+ ".") :: lines))) ∧
    (∀ line, line ∈ lines ↔
       ∃ k v first_v, dict_get k (to_dict (options ex_other)) = Some v ∧
                      dict_get k (to_dict (options ex_input1)) = Some first_v ∧
                      v ≠ first_v ∧
                      line = "  " +:+ k +:+ ": " +:+ ex_repr v +:+ " != " +:+ ex_repr first_v) ∧
    files (env f2) !! output_path None =
    files (env (run (IndexDdl true true) ex_repr ex_world ["input1.fragdb"] None).1)
      !! output_path None.
Proof.
  apply (options_enforcement (IndexDdl true true) ex_repr ex_world None
           ["input1.fragdb"] "other.fragdb" ["input2.fragdb"] "input1.fragdb"
           ex_input1 ex_other).
  - apply (bool_decide_unpack _). vm_compute. exact I.
  - vm_compute. reflexivity.
  - reflexivity.
  - reflexivity.
  - reflexivity.
  - reflexivity.
  - reflexivity.
Defined.

Lemma count_accounting_witness :
  last (reported (run (IndexDdl true true) ex_repr ex_world
                    ["input1.fragdb"; "input2.fragdb"] None).1) =
  Some "Merge complete. #files: 2 #records: 3 #error records: 0".
Proof.
  destruct (count_accounting (IndexDdl true true) ex_repr ex_world
              ["input1.fragdb"; "input2.fragdb"] None
              (run (IndexDdl true true) ex_repr ex_world
                 ["input1.fragdb"; "input2.fragdb"] None).1)
    as (dbs & Hdbs & _ & Hscenario).
  - apply (bool_decide_unpack _). vm_compute. exact I.
  - vm_compute. reflexivity.
  - apply (Hscenario ex_input1 ex_input2); [|reflexivity..].
    apply (inputs_at_inj ex_world ["input1.fragdb"; "input2.fragdb"]); [done|].
    repeat constructor.
Defined.

Lemma prior_inputs_stay_committed_witness :
  ∃ out1 out2,
    files (env (run (IndexDdl true true) ex_repr ex_world ["input1.fragdb"] None).1)
      !! "merged.fragdb" = Some (Fragdb out1) ∧
    files (env (run (IndexDdl true true) ex_repr ex_world
                  (["input1.fragdb"] ++ "shard.fragdb" :: ["input2.fragdb"]) None).1)
      !! "merged.fragdb" = Some (Fragdb out2) ∧
    grows out1 out2 ∧
    ([ex_input1] ≫= λ db, cols <$> error_record db) `prefix_of` (cols <$> error_record out2) ∧
    ([ex_input1] ≫= λ db, cols <$> record db) `prefix_of` (cols <$> record out2) ∧
    (Forall (λ db, NoDup (record_titles db)) [ex_input1] →
     ([ex_input1] ≫= titled_fragmentations) `sublist_of` titled_fragmentations out2).
Proof.
  eapply (prior_inputs_stay_committed (IndexDdl true true) ex_repr ex_world None
            ["input1.fragdb"] "shard.fragdb" ["input2.fragdb"]).
  - apply (bool_decide_unpack _). vm_compute. exact I.
  - repeat constructor.
  - vm_compute. reflexivity.
  - vm_compute. reflexivity.
Defined.

Lemma output_created_fresh_witness :
  open_output_fragdb "merged.fragdb" ex_options (initial_frame ex_world) =
    (set_env (set_files ex_world
                (<["merged.fragdb" := Fragdb (init_fragdb ex_options)]> (files ex_world)))
       (initial_frame ex_world),
     inr (Connection "merged.fragdb" (init_fragdb ex_options) None)) ∧
  run (IndexDdl true true) ex_repr
    (set_files ex_world (<["merged.fragdb" := Fragdb ex_shard]> (files ex_world)))
    ["input1.fragdb"; "input2.fragdb"] None =
  run (IndexDdl true true) ex_repr
    (set_files ex_world (delete "merged.fragdb" (files ex_world)))
    ["input1.fragdb"; "input2.fragdb"] None.
Proof.
  destruct (output_created_fresh (IndexDdl true true) ex_repr ex_world None
              "input1.fragdb" ["input2.fragdb"] ex_input1 (Fragdb ex_shard)
              (initial_frame ex_world) ex_options "merged.fragdb")
    as (Hopen & _ & _ & Hrun).
  - vm_compute. discriminate.
  - reflexivity.
  - reflexivity.
  - apply (bool_decide_unpack _). vm_compute. exact I.
  - discriminate.
  - reflexivity.
  - split; [exact Hopen|exact Hrun].
Defined.

Lemma error_record_titles_unique_witness :
  ∃ dbs out,
    inputs_at ex_world ["failed1.fragdb"; "input1.fragdb"] dbs ∧
    files (env (run get_fragment_create_index_sql ex_repr ex_world
                  ["failed1.fragdb"; "input1.fragdb"] None).1) !! "merged.fragdb"
      = Some (Fragdb out) ∧
    error_record_titles out = dbs ≫= error_record_titles ∧
    NoDup (error_record_titles out).
Proof.
  apply (error_record_titles_unique get_fragment_create_index_sql ex_repr ex_world
           ["failed1.fragdb"; "input1.fragdb"] None).
  - reflexivity.
  - apply (bool_decide_unpack _). vm_compute. exact I.
  - vm_compute. reflexivity.
Defined.

(** C1 as it was stated does not hold: [ex_failed1] and [ex_failed2] are
    valid, have equal options and no record title in common, but both
    hold an error record titled ["bad"]; with the index definitions of
    the specification the merge of the two does not return. *)
Lemma union_completeness_needs_distinct_error_titles :
  valid_fragdb get_fragment_create_index_sql ex_failed1 = true ∧
  valid_fragdb get_fragment_create_index_sql ex_failed2 = true ∧
  dict_eqb (to_dict (options ex_failed2)) (to_dict (options ex_failed1)) = true ∧
  (∀ t, t ∈ record_titles ex_failed1 → t ∉ record_titles ex_failed2) ∧
  inputs_at ex_world ["failed1.fragdb"; "failed2.fragdb"] [ex_failed1; ex_failed2] ∧
  cooperative ex_world None ["failed1.fragdb"; "failed2.fragdb"] ∧
  ¬ ∃ f', run get_fragment_create_index_sql ex_repr ex_world
            ["failed1.fragdb"; "failed2.fragdb"] None = (f', inr ()).
Proof.
  split_and!.
  - reflexivity.
  - reflexivity.
  - reflexivity.
  - intros t Ht. apply list_elem_of_In in Ht. simpl in Ht.
    destruct Ht as [<-|[]]. apply (bool_decide_unpack _). vm_compute. exact I.
  - repeat constructor.
  - split_and!; [|done..|repeat constructor].
    apply (bool_decide_unpack _). vm_compute. exact I.
  - intros [f' Hrun]. vm_compute in Hrun. discriminate.
Qed.



(** The scenario of the two example inputs, evaluated: three records and
    four fragmentations arrive, each fragmentation under the title of
    its record, and the report is the expected one. *)
Example scenario_evaluated :
  let r := run (IndexDdl true true) ex_repr ex_world
             ["input1.fragdb"; "input2.fragdb"] None in
  r.2 = inr () ∧
  (match files (env r.1) !! "merged.fragdb" with
   | Some (Fragdb out) =>
       Some (record_titles out, length (fragmentation out),
             (λ p, (p.1, variable_smiles p.2)) <$> titled_fragmentations out)
   | _ => None
   end) = Some (["mol1"; "mol2"; "mol3"], 4,
                [("mol1", SqlText "[*:1]O"); ("mol2", SqlText "[*:1]N");
                 ("mol2", SqlText "[*:1]C"); ("mol3", SqlText "[*:1]S")]) ∧
  reported r.1 = ["No --output file name specified. Using 'merged.fragdb'.";
                  "Merge complete. #files: 2 #records: 3 #error records: 0"].
Proof. vm_compute. done. Qed.

(** * Further properties of the program *)

(** ** Runs that fail before the output is open *)

Section early_failures.
Variable ddl : index_ddl.
Variable repr : pyval → string.

(** When the body fails on the first file with no output opened, the run
    ends there, in the frame the body left. *)
Lemma run_first_fails_unopened w fn fns o f1 e :
  merge_file ddl repr (output_path o) fn (Frame None None None w (notice repr o)) = (f1, inl e) →
  output_c f1 = None →
  run ddl repr w (fn :: fns) o = (f1, inl e).
Proof.
  intros Hfirst Hnone. unfold run, fragdb_merge. rewrite bool_decide_eq_false_2 by done.
  rewrite py_bind_eq. unfold ret at 1. rewrite py_bind_eq.
  assert ((match o with
           | Some name => ret name
           | None =>
               report ("No --output file name specified. Using " +:+
                       repr (PyStr "merged.fragdb") +:+ ".") ;;
               ret "merged.fragdb"
           end) (initial_frame w) =
          (Frame None None None w (notice repr o), inr (output_path o))) as ->
    by (by destruct o).
  rewrite py_bind_eq. unfold try_finally.
  change (for_each (fn :: fns) (merge_file ddl repr (output_path o)))
    with (merge_file ddl repr (output_path o) fn ;;
          for_each fns (merge_file ddl repr (output_path o))).
  rewrite py_bind_eq, Hfirst.
  unfold gather_counts. rewrite py_bind_eq. unfold get. by rewrite Hnone.
Qed.

Lemma run_first_not_fragdb w fn fns o :
  (∀ db, files w !! fn ≠ Some (Fragdb db)) →
  run ddl repr w (fn :: fns) o =
  (Frame None None None w (notice repr o), inl (open_failure (open_fragdb_error w fn))).
Proof.
  intros Hfn. apply run_first_fails_unopened; [|done].
  rewrite merge_file_attach_and_copy, py_bind_eq. unfold try_except at 1, open_fragdb.
  simpl (env _). destruct (files w !! fn) as [[db| |]|] eqn:Hlook;
    try by destruct (open_fragdb_error w fn).
  by destruct (Hfn db).
Qed.

(** The two ways the handler around [open_fragdb] ends. *)
Lemma open_failure_cases e :
  (∀ err, e = ValueError err → open_failure e = SystemExit [err]) ∧
  ((∀ err, e ≠ ValueError err) → open_failure e = e).
Proof.
  split.
  - by intros err ->.
  - intros Hne. destruct e; try done. by destruct (Hne msg).
Qed.

Lemma run_output_is_directory w fn fns o old_db :
  files w !! fn = Some (Fragdb old_db) →
  files w !! output_path o = Some Directory →
  run ddl repr w (fn :: fns) o =
  (Frame (Some (fn, options old_db)) None None w (notice repr o),
   inl (IsADirectoryError (output_path o))).
Proof.
  intros Hfn Hdir. apply run_first_fails_unopened; [|done].
  rewrite merge_file_attach_and_copy, py_bind_eq. unfold try_except at 1, open_fragdb.
  simpl (env _). rewrite Hfn.
  unfold open_output_fragdb, os_unlink. py_unfold. simpl. by rewrite Hdir.
Qed.

Lemma run_output_not_created w fn fns o old_db err :
  files w !! fn = Some (Fragdb old_db) →
  files w !! output_path o ≠ Some Directory →
  connect_error w (output_path o) = Some err →
  run ddl repr w (fn :: fns) o =
  (Frame (Some (fn, options old_db)) None None
     (set_files w (delete (output_path o) (files w))) (notice repr o),
   inl (SystemExit ["Error trying to open " +:+ repr (PyStr (output_path o)) +:+
                    " for writing: " +:+ err])).
Proof.
  intros Hfn Hdir Hconn. apply run_first_fails_unopened; [|done].
  rewrite merge_file_attach_and_copy, py_bind_eq. unfold try_except at 1, open_fragdb.
  simpl (env _). rewrite Hfn.
  unfold open_output_fragdb, os_unlink, create_fragdb. py_unfold. simpl.
  destruct (files w !! output_path o) as [[]|] eqn:Hout; try done; simpl; rewrite Hconn; simpl.
  - reflexivity.
  - reflexivity.
  - rewrite delete_id by done. by destruct w.
Qed.

End early_failures.

(** ** How a run fails *)

Section failures.
Variable ddl : index_ddl.
Variable repr : pyval → string.

Lemma directory_or_not w p :
  files w !! p = Some Directory ∨ files w !! p ≠ Some Directory.
Proof. destruct (files w !! p) as [[]|]; by (left + right). Qed.

(** X1.  When the first path holds no fragment database, the run ends
    with what [open_fragdb] raises for it, before the output path is
    looked at: in [die] with the text of the error when that is a
    [ValueError], and with the error itself, which nothing handles, when
    it is any other (for a path that does not exist, or a file that is
    no database).  The file system is left as it was, a file at the
    output path included. *)
Theorem invalid_first_input_leaves_files w fn fns o :
  (∀ db, files w !! fn ≠ Some (Fragdb db)) →
  ∃ f' e,
    run ddl repr w (fn :: fns) o = (f', inl e) ∧
    (∀ err, open_fragdb_error w fn = ValueError err → e = SystemExit [err]) ∧
    ((∀ err, open_fragdb_error w fn ≠ ValueError err) → e = open_fragdb_error w fn) ∧
    env f' = w ∧
    reported f' = notice repr o.
Proof.
  intros Hfn. destruct (open_failure_cases (open_fragdb_error w fn)) as [Hvalue Hother].
  eexists _, _. split; [by apply run_first_not_fragdb|done].
Qed.

(** X2.  When sqlite3 cannot create the output database, the run ends in
    [die] with the message for the output path; by then the file that
    lay at the output path has been removed, and no other path has
    changed. *)
Theorem unwritable_output_loses_old_file w fn fns o old_db err :
  files w !! fn = Some (Fragdb old_db) →
  files w !! output_path o ≠ Some Directory →
  connect_error w (output_path o) = Some err →
  ∃ f',
    run ddl repr w (fn :: fns) o =
      (f', inl (SystemExit ["Error trying to open " +:+ repr (PyStr (output_path o)) +:+
                            " for writing: " +:+ err])) ∧
    files (env f') !! output_path o = None ∧
    (∀ p, p ≠ output_path o → files (env f') !! p = files w !! p).
Proof.
  intros Hfn Hdir Hconn. eexists. split; [by apply run_output_not_created|]. split.
  - apply lookup_delete_eq.
  - intros p Hp. by apply lookup_delete_ne.
Qed.

(** X3.  When the output path is a directory, [os.unlink] raises an
    error that is not [FileNotFoundError]; neither [open_output_fragdb]
    nor [fragdb_merge] handles it, so the run ends with that exception
    and not in [die], and the file system is left as it was. *)
Theorem directory_output_not_handled w fn fns o old_db :
  files w !! fn = Some (Fragdb old_db) →
  files w !! output_path o = Some Directory →
  ∃ f',
    run ddl repr w (fn :: fns) o = (f', inl (IsADirectoryError (output_path o))) ∧
    env f' = w ∧
    output_c f' = None.
Proof.
  intros Hfn Hdir. eexists. split; [by apply run_output_is_directory|done].
Qed.

(** X4.  When a path after the first holds no fragment database, the
    run ends with what [open_fragdb] raises for it: in [die] with the
    text of the error when that is a [ValueError], and with the error
    itself, which nothing handles, when it is any other.  The output is
    left as the inputs before it made it. *)
Theorem invalid_later_input w o pre fn post f1 :
  output_path o ∉ pre ++ fn :: post →
  run ddl repr w pre o = (f1, inr ()) →
  (∀ db, files w !! fn ≠ Some (Fragdb db)) →
  ∃ f2 e,
    run ddl repr w (pre ++ fn :: post) o = (f2, inl e) ∧
    (∀ err, open_fragdb_error w fn = ValueError err → e = SystemExit [err]) ∧
    ((∀ err, open_fragdb_error w fn ≠ ValueError err) → e = open_fragdb_error w fn) ∧
    files (env f2) !! output_path o = files (env f1) !! output_path o.
Proof.
  intros Hout Hrun1 Hfn.
  destruct (open_failure_cases (open_fragdb_error w fn)) as [Hvalue Hother].
  destruct (run_continues ddl repr w o pre (fn :: post) f1 Hout Hrun1)
    as (fa & A & out1 & _ & _ & -> & Hrun).
  cbn [files_outcome] in Hrun. unfold file_outcome in Hrun.
  destruct (files w !! fn) as [[db| |]|] eqn:Hlook;
    [by destruct (Hfn db)|..];
    (eexists _, _; split_and!; [exact Hrun|done|done|by rewrite !final_frame_output]).
Qed.

(** X5.  An input with the options of the first that sqlite3 cannot
    attach ends the run in [die] with the message for that file, and the
    output is left as the inputs before it made it. *)
Theorem attach_failure w o pre fn post fa A B f1 err :
  output_path o ∉ pre ++ fn :: post →
  run ddl repr w pre o = (f1, inr ()) →
  head pre = Some fa →
  files w !! fa = Some (Fragdb A) →
  files w !! fn = Some (Fragdb B) →
  dict_eqb (to_dict (options B)) (to_dict (options A)) = true →
  attach_error w fn = Some err →
  ∃ f2,
    run ddl repr w (pre ++ fn :: post) o =
      (f2, inl (SystemExit ["Cannot attach " +:+ repr (PyStr fn) +:+
                            " using sqlite3: " +:+ err])) ∧
    files (env f2) !! output_path o = files (env f1) !! output_path o.
Proof.
  intros Hout Hrun1 Hhead Hfa Hfn Hopts Hatt.
  destruct (run_continues ddl repr w o pre (fn :: post) f1 Hout Hrun1)
    as (fa' & A' & out1 & Hhead' & Hfa' & -> & Hrun).
  rewrite Hhead in Hhead'. injection Hhead' as <-.
  rewrite Hfa in Hfa'. injection Hfa' as <-.
  cbn [files_outcome] in Hrun. unfold file_outcome, check_options_mismatch in Hrun.
  rewrite Hfn, Hopts, Hatt in Hrun. unfold copy_outcome in Hrun.
  eexists. split; [exact Hrun|by rewrite !final_frame_output].
Qed.

(** X6.  A run that fails never gives the final report: whatever it
    reported is the notice about the default output name. *)
Theorem failed_run_reports_no_completion w fns o f' e :
  output_path o ∉ fns →
  run ddl repr w fns o = (f', inl e) →
  reported f' = [] ∨ reported f' = notice repr o.
Proof.
  intros Hout Hrun. destruct fns as [|fn fns].
  { rewrite run_nil in Hrun. injection Hrun as <- _. by left. }
  right. destruct (files w !! fn) as [[old_db| |]|] eqn:Hfn.
  2-4: rewrite run_first_not_fragdb in Hrun by (intros db; by rewrite Hfn);
       by injection Hrun as <- _.
  destruct (directory_or_not w (output_path o)) as [Hdir|Hdir].
  { rewrite (run_output_is_directory ddl repr w fn fns o old_db) in Hrun by done.
    by injection Hrun as <- _. }
  destruct (connect_error w (output_path o)) as [err|] eqn:Hconn.
  { rewrite (run_output_not_created ddl repr w fn fns o old_db err) in Hrun by done.
    by injection Hrun as <- _. }
  rewrite (run_outcome ddl repr w fn fns o old_db) in Hrun by done.
  destruct (files_outcome _ _ _ _ _ _ _) as [db r]. injection Hrun as <- ->.
  unfold final_frame. cbn [reported]. by rewrite app_nil_r.
Qed.

(** X7.  No run changes a path other than its output path: the inputs,
    and every other file, are left as they were, whether the run returns
    or fails. *)
Theorem inputs_never_modified w fns o f' r p :
  output_path o ∉ fns →
  run ddl repr w fns o = (f', r) →
  p ≠ output_path o →
  files (env f') !! p = files w !! p.
Proof.
  intros Hout Hrun Hp. destruct fns as [|fn fns].
  { rewrite run_nil in Hrun. by injection Hrun as <- _. }
  destruct (files w !! fn) as [[old_db| |]|] eqn:Hfn.
  2-4: rewrite run_first_not_fragdb in Hrun by (intros db; by rewrite Hfn);
       by injection Hrun as <- _.
  destruct (directory_or_not w (output_path o)) as [Hdir|Hdir].
  { rewrite (run_output_is_directory ddl repr w fn fns o old_db) in Hrun by done.
    by injection Hrun as <- _. }
  destruct (connect_error w (output_path o)) as [err|] eqn:Hconn.
  { rewrite (run_output_not_created ddl repr w fn fns o old_db err) in Hrun by done.
    injection Hrun as <- _. by apply lookup_delete_ne. }
  rewrite (run_outcome ddl repr w fn fns o old_db) in Hrun by done.
  destruct (files_outcome _ _ _ _ _ _ _) as [db r']. injection Hrun as <- _.
  by apply final_frame_other.
Qed.

End failures.

(** ** The default output name *)

Section default_output.
Variable ddl : index_ddl.
Variable repr : pyval → string.

(** X8.  Leaving out the output name is the same as giving
    ["merged.fragdb"], but for one notice, which is reported before
    anything else is done: the result, the files and the other reports
    are the same. *)
Theorem default_output_name w fn fns f r :
  "merged.fragdb" ∉ fn :: fns →
  run ddl repr w (fn :: fns) (Some "merged.fragdb") = (f, r) →
  run ddl repr w (fn :: fns) None =
  (Frame (first f) (output_c f) (num f) (env f)
     (("No --output file name specified. Using " +:+ repr (PyStr "merged.fragdb") +:+ ".")
        :: reported f), r).
Proof.
  intros Hout Hrun.
  destruct (files w !! fn) as [[old_db| |]|] eqn:Hfn.
  2-4: rewrite run_first_not_fragdb in Hrun by (intros db; by rewrite Hfn);
       rewrite run_first_not_fragdb by (intros db; by rewrite Hfn);
       by injection Hrun as <- <-.
  destruct (directory_or_not w "merged.fragdb") as [Hdir|Hdir].
  { rewrite (run_output_is_directory ddl repr w fn fns (Some "merged.fragdb") old_db)
      in Hrun by done.
    rewrite (run_output_is_directory ddl repr w fn fns None old_db) by done.
    by injection Hrun as <- <-. }
  destruct (connect_error w "merged.fragdb") as [err|] eqn:Hconn.
  { rewrite (run_output_not_created ddl repr w fn fns (Some "merged.fragdb") old_db err)
      in Hrun by done.
    rewrite (run_output_not_created ddl repr w fn fns None old_db err) by done.
    by injection Hrun as <- <-. }
  rewrite (run_outcome ddl repr w fn fns (Some "merged.fragdb") old_db) in Hrun by done.
  rewrite (run_outcome ddl repr w fn fns None old_db) by done.
  change (output_path None) with (output_path (Some "merged.fragdb")).
  destruct (files_outcome _ _ _ _ _ _ _) as [db r']. by injection Hrun as <- <-.
Qed.

End default_output.

(** ** The comparison of options *)

Lemma dict_get_None k (d : dict) : k ∉ dict_keys d → dict_get k d = None.
Proof.
  intros Hk. destruct (dict_get k d) as [v|] eqn:Hv; [|done].
  by apply dict_get_Some_keys in Hv.
Qed.

Lemma dict_eqb_true d first_d :
  dict_eqb d first_d = true ↔
  length d = length first_d ∧ ∀ k, k ∈ dict_keys d → dict_get k d = dict_get k first_d.
Proof.
  unfold dict_eqb. rewrite andb_true_iff, bool_decide_eq_true, forallb_forall.
  setoid_rewrite bool_decide_eq_true. by setoid_rewrite <- list_elem_of_In.
Qed.

Lemma check_options_mismatch_inr repr fn opts first_filename first_options :
  check_options_mismatch repr fn opts first_filename first_options = inr () ↔
  dict_eqb (to_dict opts) (to_dict first_options) = true.
Proof.
  unfold check_options_mismatch. destruct (dict_eqb _ _); [done|].
  by destruct (mismatch_lines _ _ _ _).
Qed.

Section options_check.
Variable repr : pyval → string.

(** X9.  For dictionaries with distinct keys, [check_options_mismatch]
    returns exactly when both bind the same keys to the same values; the
    order of the keys and the two file names play no part. *)
Theorem options_check_compares_mappings fn opts first_filename first_options :
  NoDup (dict_keys (to_dict opts)) →
  NoDup (dict_keys (to_dict first_options)) →
  check_options_mismatch repr fn opts first_filename first_options = inr () ↔
  ∀ k, dict_get k (to_dict opts) = dict_get k (to_dict first_options).
Proof.
  intros Hnd Hnd'. rewrite check_options_mismatch_inr, dict_eqb_true.
  set (d := to_dict opts) in *. set (d' := to_dict first_options) in *. split.
  - intros [Hlen Hkeys] k. destruct (decide (k ∈ dict_keys d)) as [Hk|Hk]; [auto|].
    rewrite (dict_get_None k d Hk). symmetry. apply dict_get_None. intros Hk'. apply Hk.
    assert (dict_keys d ≡ₚ dict_keys d') as Hperm; [|by rewrite Hperm].
    apply submseteq_length_Permutation.
    + apply NoDup_submseteq; [done|]. intros k0 Hk0.
      destruct (dict_get_keys k0 d Hk0) as [v Hv].
      apply (dict_get_Some_keys k0 v). by rewrite <- Hkeys.
    + unfold dict_keys. rewrite !length_fmap. lia.
  - intros Hall. split; [|auto].
    assert (dict_keys d ≡ₚ dict_keys d') as Hperm.
    { apply NoDup_Permutation; [done..|]. intros k. split; intros Hk.
      - destruct (dict_get_keys k d Hk) as [v Hv]. apply (dict_get_Some_keys k v).
        by rewrite <- Hall.
      - destruct (dict_get_keys k d' Hk) as [v Hv]. apply (dict_get_Some_keys k v).
        by rewrite Hall. }
    apply Permutation_length in Hperm. unfold dict_keys in Hperm.
    by rewrite !length_fmap in Hperm.
Qed.

Lemma mismatch_lines_KeyError ks1 k ks2 d first_d :
  (∀ k', k' ∈ ks1 → is_Some (dict_get k' d) ∧ is_Some (dict_get k' first_d)) →
  is_Some (dict_get k d) →
  dict_get k first_d = None →
  mismatch_lines repr (ks1 ++ k :: ks2) d first_d = inl (KeyError k).
Proof.
  intros Hks1 [v Hv] Hnone. induction ks1 as [|k1 ks1 IH]; simpl.
  - by rewrite Hv, Hnone.
  - destruct (Hks1 k1 (list_elem_of_here _ _)) as [[v1 ->] [v1' ->]].
    rewrite IH; [done|]. intros k' Hk'. apply Hks1. by right.
Qed.

(** X10.  When the first file's options lack a field of the later
    file's, the check does not end in [die] but raises [KeyError] for the
    first such field, in the order of the later file's fields. *)
Theorem options_check_missing_field fn opts first_filename first_options ks1 k ks2 :
  dict_keys (to_dict opts) = ks1 ++ k :: ks2 →
  (∀ k', k' ∈ ks1 → is_Some (dict_get k' (to_dict first_options))) →
  dict_get k (to_dict first_options) = None →
  check_options_mismatch repr fn opts first_filename first_options = inl (KeyError k).
Proof.
  intros Hkeys Hks1 Hnone.
  assert (∀ k', k' ∈ ks1 ++ k :: ks2 → is_Some (dict_get k' (to_dict opts))) as Hd.
  { intros k' Hk'. apply dict_get_keys. by rewrite Hkeys. }
  unfold check_options_mismatch.
  destruct (dict_eqb _ _) eqn:Heq.
  { apply dict_eqb_true in Heq as [_ Hall].
    destruct (Hd k) as [v Hv]; [apply elem_of_app; right; left|].
    rewrite Hall, Hnone in Hv; [done|]. rewrite Hkeys. apply elem_of_app. right. left. }
  rewrite Hkeys, mismatch_lines_KeyError; [done| |auto|done].
  - intros k' Hk'. split; [|auto]. apply Hd, elem_of_app. by left.
  - apply Hd, elem_of_app. right. left.
Qed.

(** The lines of the loop when every field of the later file is a field
    of the first: one for each field whose values differ, in the order
    of the later file's fields. *)
Lemma mismatch_lines_ordered ks d first_d :
  (∀ k, k ∈ ks → is_Some (dict_get k d) ∧ is_Some (dict_get k first_d)) →
  mismatch_lines repr ks d first_d =
  inr ((λ k, "  " +:+ k +:+ ": " +:+ repr (default PyNone (dict_get k d)) +:+ " != " +:+
             repr (default PyNone (dict_get k first_d)))
       <$> filter (λ k, dict_get k d ≠ dict_get k first_d) ks).
Proof.
  induction ks as [|k ks IH]; intros Hks; [done|].
  destruct (Hks k (list_elem_of_here _ _)) as [[v Hv] [v' Hv']].
  simpl. rewrite Hv, Hv', IH by (intros k' Hk'; apply Hks; by right).
  rewrite filter_cons. rewrite Hv, Hv'.
  destruct (decide (v ≠ v')) as [Hne|Heq].
  - rewrite decide_True by congruence. rewrite fmap_cons. by rewrite Hv, Hv'.
  - rewrite decide_False; [done|]. intros Hne. apply Heq. congruence.
Qed.

(** X11.  When every field of the later file is a field of the first and
    the options are not equal, the message of [die] is the header
    followed by one line for each field whose values differ, in the
    order of the later file's fields; fields that only the first file
    has give no line. *)
Theorem options_check_lines_in_field_order fn opts first_filename first_options :
  (∀ k, k ∈ dict_keys (to_dict opts) → is_Some (dict_get k (to_dict first_options))) →
  dict_eqb (to_dict opts) (to_dict first_options) = false →
  check_options_mismatch repr fn opts first_filename first_options =
  inl (SystemExit
    (("Cannot merge. The options in " +:+ repr (PyStr fn) +:+
      " differ from " +:+ repr (PyStr first_filename) +:+ ".") ::
     ((λ k, "  " +:+ k +:+ ": " +:+
            repr (default PyNone (dict_get k (to_dict opts))) +:+ " != " +:+
            repr (default PyNone (dict_get k (to_dict first_options))))
      <$> filter (λ k, dict_get k (to_dict opts) ≠ dict_get k (to_dict first_options))
                 (dict_keys (to_dict opts))))).
Proof.
  intros Hkeys Hne. unfold check_options_mismatch. rewrite Hne.
  rewrite mismatch_lines_ordered; [done|].
  intros k Hk. split; [by apply dict_get_keys|auto].
Qed.

Lemma mismatch_lines_of_fields fn opts first_filename first_options :
  (∀ k, k ∈ dict_keys (to_dict opts) →
        dict_get k (to_dict opts) = dict_get k (to_dict first_options)) →
  dict_eqb (to_dict opts) (to_dict first_options) = false →
  check_options_mismatch repr fn opts first_filename first_options =
  inl (SystemExit
    (("Cannot merge. The options in " +:+ repr (PyStr fn) +:+
      " differ from " +:+ repr (PyStr first_filename) +:+ ".") ::
     ((λ k, "  " +:+ k +:+ ": " +:+
            repr (default PyNone (dict_get k (to_dict opts))) +:+ " != " +:+
            repr (default PyNone (dict_get k (to_dict first_options))))
      <$> filter (λ k, dict_get k (to_dict opts) ≠ dict_get k (to_dict first_options))
                 (dict_keys (to_dict opts))))).
Proof.
  intros Hall Hne. unfold check_options_mismatch. rewrite Hne.
  rewrite mismatch_lines_ordered; [done|].
  intros k Hk. pose proof (dict_get_keys k _ Hk) as Hsome. split; [done|].
  by rewrite <- Hall.
Qed.

(** X12.  When the first file's options bind every field of the later
    file to the same value and have more fields besides, the check ends
    in [die] with the header alone: it names no field. *)
Theorem options_check_extra_fields_unnamed fn opts first_filename first_options :
  (∀ k, k ∈ dict_keys (to_dict opts) →
        dict_get k (to_dict opts) = dict_get k (to_dict first_options)) →
  length (to_dict opts) ≠ length (to_dict first_options) →
  check_options_mismatch repr fn opts first_filename first_options =
  inl (SystemExit ["Cannot merge. The options in " +:+ repr (PyStr fn) +:+
                   " differ from " +:+ repr (PyStr first_filename) +:+ "."]).
Proof.
  intros Hall Hlen.
  rewrite mismatch_lines_of_fields; [|done|].
  - rewrite filter_none; [done|]. intros k Hk Hne. by apply Hne, Hall.
  - destruct (dict_eqb _ _) eqn:Heq; [|done]. by apply dict_eqb_true in Heq as [? _].
Qed.

End options_check.

(** ** The tables of the output *)

Lemma foldr_max_in (i : Z) (ids : list Z) : foldr Z.max i ids ∈ i :: ids.
Proof.
  induction ids as [|j ids IH]; simpl; [left|].
  destruct (Z.max_spec j (foldr Z.max i ids)) as [[_ ->]|[_ ->]].
  - apply elem_of_cons in IH as [->|IH]; [left|right; by right].
  - right. left.
Qed.

Lemma next_rowid_consecutive {A} (t : table A) :
  id <$> t = seqZ 1 (Z.of_nat (length t)) → next_rowid t = (1 + Z.of_nat (length t))%Z.
Proof.
  intros Hids. destruct t as [|r t]; [done|].
  assert (∀ r', r' ∈ r :: t → (id r' < next_rowid (r :: t))%Z) as Habove
    by (intros r'; apply next_rowid_above).
  assert ((next_rowid (r :: t) - 1)%Z ∈ id <$> r :: t) as Hin.
  { unfold next_rowid. rewrite fmap_cons.
    replace (1 + foldr Z.max (id r) (id <$> t) - 1)%Z with (foldr Z.max (id r) (id <$> t))
      by lia. apply foldr_max_in. }
  rewrite Hids in Hin. apply elem_of_seqZ in Hin.
  assert (Z.of_nat (length (r :: t)) ∈ id <$> r :: t) as Hlast.
  { rewrite Hids. apply elem_of_seqZ. simpl. lia. }
  apply list_elem_of_fmap in Hlast as (r' & Hid & Hr'). apply Habove in Hr'. lia.
Qed.

Lemma insert_rows_consecutive {A} (t : table A) (vs : list A) :
  id <$> t = seqZ 1 (Z.of_nat (length t)) →
  id <$> insert_rows t vs = seqZ 1 (Z.of_nat (length (insert_rows t vs))).
Proof.
  revert t. induction vs as [|v vs IH]; intros t Hids; [done|].
  rewrite insert_rows_cons. apply IH. unfold insert_row.
  rewrite fmap_app, length_app, Hids, Nat.add_1_r, seqZ_S. simpl.
  by rewrite next_rowid_consecutive.
Qed.

Lemma merged_consecutive out old_db :
  id <$> error_record out = seqZ 1 (Z.of_nat (length (error_record out))) →
  id <$> record out = seqZ 1 (Z.of_nat (length (record out))) →
  id <$> fragmentation out = seqZ 1 (Z.of_nat (length (fragmentation out))) →
  let out' := merged out old_db in
  id <$> error_record out' = seqZ 1 (Z.of_nat (length (error_record out'))) ∧
  id <$> record out' = seqZ 1 (Z.of_nat (length (record out'))) ∧
  id <$> fragmentation out' = seqZ 1 (Z.of_nat (length (fragmentation out'))).
Proof. intros. split_and!; by apply insert_rows_consecutive. Qed.

Lemma merge_all_consecutive opts dbs :
  let out := merge_all opts dbs in
  id <$> error_record out = seqZ 1 (Z.of_nat (length (error_record out))) ∧
  id <$> record out = seqZ 1 (Z.of_nat (length (record out))) ∧
  id <$> fragmentation out = seqZ 1 (Z.of_nat (length (fragmentation out))).
Proof.
  induction dbs as [|db dbs IH] using rev_ind; [done|].
  rewrite merge_all_snoc. destruct IH as (? & ? & ?). by apply merged_consecutive.
Qed.

(** Rows are their identifiers and their columns. *)
Lemma rows_eq {A} (t t' : table A) :
  id <$> t = id <$> t' → cols <$> t = cols <$> t' → t = t'.
Proof.
  revert t'. induction t as [|[i c] t IH]; intros [|[i' c'] t']; try done.
  rewrite !fmap_cons. simpl. intros [= -> Hids] [= -> Hcols]. f_equal. by apply IH.
Qed.

Section output_tables.
Variable ddl : index_ddl.
Variable repr : pyval → string.

(** X13.  After every run that returns, the output carries the options
    of the first input; its error records and its records are those of
    the inputs, column for column, in the order of the inputs and of
    their rows; and the rows of each of its three tables are numbered
    1, 2, 3, ... in that order. *)
Theorem output_rows_in_input_order w fns o f' :
  output_path o ∉ fns →
  run ddl repr w fns o = (f', inr ()) →
  ∃ dbs out,
    inputs_at w fns dbs ∧
    files (env f') !! output_path o = Some (Fragdb out) ∧
    Some (options out) = options <$> head dbs ∧
    cols <$> error_record out = (dbs ≫= λ db, cols <$> error_record db) ∧
    cols <$> record out = (dbs ≫= λ db, cols <$> record db) ∧
    id <$> error_record out = seqZ 1 (Z.of_nat (length (error_record out))) ∧
    id <$> record out = seqZ 1 (Z.of_nat (length (record out))) ∧
    id <$> fragmentation out = seqZ 1 (Z.of_nat (length (fragmentation out))).
Proof.
  intros Hout Hrun.
  destruct (run_inr ddl repr w fns o f' Hout Hrun) as (fn & old_db & dbs & _ & Hdbs & -> & _).
  destruct (merge_all_consecutive (options old_db) (old_db :: dbs)) as (He & Hr & Hf).
  exists (old_db :: dbs), (merge_all (options old_db) (old_db :: dbs)).
  split_and!; [done|apply final_frame_output|by rewrite merge_all_options
              |apply merge_all_error_record|apply merge_all_record|done..].
Qed.

End output_tables.

(** ** What a run that returns has checked *)

Section checked.
Variable ddl : index_ddl.
Variable repr : pyval → string.

(** The titles the output holds when the loop starts are titles of none
    of the inputs of a loop that ends well. *)
Lemma files_outcome_disjoint w first_filename first_options fns dbs out out' :
  files_outcome ddl repr w first_filename first_options fns out = (out', inr ()) →
  inputs_at w fns dbs →
  ∀ db t, db ∈ dbs → t ∈ record_titles out → t ∉ record_titles db.
Proof.
  intros Hloop Hdbs. revert out Hloop.
  induction Hdbs as [|fn db0 fns dbs Hfn _ IH]; intros out Hloop db t Hdb Ht.
  { by apply elem_of_nil in Hdb. }
  simpl in Hloop. unfold file_outcome in Hloop. rewrite Hfn in Hloop.
  destruct (check_options_mismatch _ _ _ _ _) as [e|[]]; [done|].
  destruct (copy_outcome _ _ _ _ _ _ _) as [out1 [e|[]]] eqn:Hcopy; [done|].
  apply copy_outcome_inv in Hcopy as (-> & _ & Hdup).
  apply elem_of_cons in Hdb as [->|Hdb].
  - intros Ht'.
    assert (t ∈ duplicate_titles (record db0) (record out)) as Hin
      by (by apply elem_of_duplicate_titles).
    rewrite Hdup in Hin. by apply elem_of_nil in Hin.
  - apply (IH _ Hloop db t Hdb). rewrite merged_record_titles. apply elem_of_app. by left.
Qed.

Lemma files_outcome_pairwise w first_filename first_options fns dbs out out' :
  files_outcome ddl repr w first_filename first_options fns out = (out', inr ()) →
  inputs_at w fns dbs →
  ∀ i j A B t, i < j → dbs !! i = Some A → dbs !! j = Some B →
               t ∈ record_titles A → t ∉ record_titles B.
Proof.
  intros Hloop Hdbs. revert out Hloop.
  induction Hdbs as [|fn db0 fns dbs Hfn Hrest IH]; intros out Hloop i j A B t Hij HA HB Ht.
  { done. }
  simpl in Hloop. unfold file_outcome in Hloop. rewrite Hfn in Hloop.
  destruct (check_options_mismatch _ _ _ _ _) as [e|[]]; [done|].
  destruct (copy_outcome _ _ _ _ _ _ _) as [out1 [e|[]]] eqn:Hcopy; [done|].
  apply copy_outcome_inv in Hcopy as (-> & _ & _).
  destruct j as [|j]; [lia|]. simpl in HB. destruct i as [|i]; simpl in HA.
  - injection HA as <-.
    apply (files_outcome_disjoint _ _ _ _ _ _ _ Hloop Hrest B t).
    + by apply list_elem_of_lookup_2 in HB.
    + rewrite merged_record_titles. apply elem_of_app. by right.
  - apply (IH _ Hloop i j A B t); [lia|done..].
Qed.

(** X14.  A run that returns has met no record title in two of its
    inputs: the duplicate check lets no title shared by two inputs
    through, wherever the two inputs stand among the file names. *)
Theorem returned_run_shares_no_title w fns o f' dbs i j A B t :
  output_path o ∉ fns →
  run ddl repr w fns o = (f', inr ()) →
  inputs_at w fns dbs →
  i < j → dbs !! i = Some A → dbs !! j = Some B →
  t ∈ record_titles A → t ∉ record_titles B.
Proof.
  intros Hout Hrun Hdbs.
  destruct (run_inr_inv ddl repr w fns o f' Hout Hrun)
    as (fn & fns' & old_db & -> & Hfn & Hdir & Hconn).
  rewrite (run_outcome ddl repr w fn fns' o old_db) in Hrun by done.
  destruct (files_outcome _ _ _ _ _ _ _) as [db r] eqn:Hloop.
  injection Hrun as _ ->.
  by apply (files_outcome_pairwise _ _ _ _ _ _ _ Hloop Hdbs).
Qed.

(** X15.  The output of a run that returns on inputs whose own record
    titles are unique is a valid fragment database again: its keys are
    unique, every fragmentation has its record, record titles are
    unique, and the error record titles satisfy the uniqueness declared
    on them.  It can be given to a later merge. *)
Theorem merged_output_is_valid w fns o f' dbs :
  output_path o ∉ fns →
  run ddl repr w fns o = (f', inr ()) →
  inputs_at w fns dbs →
  Forall (λ db, NoDup (record_titles db)) dbs →
  ∃ out,
    files (env f') !! output_path o = Some (Fragdb out) ∧
    valid_fragdb ddl out = true.
Proof.
  intros Hout Hrun Hdbs Hnds.
  pose proof (run_inr_titles ddl repr w fns o f' dbs Hout Hrun Hdbs Hnds) as Htitles.
  destruct (run_inr_inv ddl repr w fns o f' Hout Hrun)
    as (fn & fns' & old_db & -> & Hfn & Hdir & Hconn).
  rewrite (run_outcome ddl repr w fn fns' o old_db) in Hrun by done.
  destruct (files_outcome _ _ _ _ _ _ _) as [out r] eqn:Hloop.
  injection Hrun as <- ->. exists out. split; [apply final_frame_output|].
  pose proof (files_outcome_error_titles ddl repr _ _ _ _ _ _ Hloop) as Herr.
  apply files_outcome_inv in Hloop as (dbs' & Hdbs' & -> & _).
  rewrite (inputs_at_inj _ _ _ _ Hdbs' Hdbs) in *.
  apply valid_fragdb_spec. split_and!.
  - apply (merge_all_well_keyed (options old_db)).
  - change (NoDup (record_titles (merge_all (options old_db) dbs))).
    by rewrite merge_all_record_titles.
  - apply Herr. apply unique_ok_NoDup. apply NoDup_nil_2.
Qed.

End checked.

(** ** Fragmentations without a record *)

Lemma bind_filter {A B} (P : A → Prop) `{∀ x, Decision (P x)} (f : A → list B) (l : list A) :
  (∀ x, x ∈ l → ¬ P x → f x = []) → l ≫= f = filter P l ≫= f.
Proof.
  induction l as [|x l IH]; intros Hf; [done|].
  rewrite filter_cons, bind_cons, IH by (intros y Hy; apply Hf; by right).
  destruct (decide (P x)) as [HP|HP]; [done|].
  rewrite (Hf x); [done|left|done].
Qed.

Lemma filter_all {A} (P : A → Prop) `{∀ x, Decision (P x)} (l : list A) :
  (∀ x, x ∈ l → P x) → filter P l = l.
Proof.
  induction l as [|x l IH]; intros HP; [done|].
  rewrite filter_cons, decide_True by (apply HP; left).
  f_equal. apply IH. intros y Hy. apply HP. by right.
Qed.

Lemma fmap_bind_list {A B C} (g : B → C) (f : A → list B) (l : list A) :
  g <$> (l ≫= f) = l ≫= λ x, g <$> f x.
Proof.
  induction l as [|x l IH]; [done|]. by rewrite !bind_cons, fmap_app, IH.
Qed.

Lemma bind_fmap_list {A B C} (g : A → B) (f : B → list C) (l : list A) :
  (g <$> l) ≫= f = l ≫= λ x, f (g x).
Proof.
  induction l as [|x l IH]; [done|]. by rewrite fmap_cons, !bind_cons, IH.
Qed.

(** The join of a table with the rows that refer to it returns each
    referring row whose reference is a key of the table, once. *)
Lemma join_filters {A B C K} `{EqDecision K} (key : A → K) (ref : B → K) (h : B → C)
    (parents : list A) (children : list B) :
  NoDup (key <$> parents) →
  (parents ≫= λ p, children ≫= λ c, if decide (ref c = key p) then [h c] else [])
  ≡ₚ h <$> filter (λ c, ref c ∈ key <$> parents) children.
Proof.
  intros Hnd.
  rewrite <- (join_covers key ref h parents
                (filter (λ c, ref c ∈ key <$> parents) children) Hnd)
    by (by intros c [Hc _]%list_elem_of_filter).
  erewrite bind_ext_in; [reflexivity|].
  intros p Hp. apply bind_filter. intros c _ Hc.
  destruct (decide (ref c = key p)) as [Heq|]; [|done].
  destruct Hc. rewrite Heq. by apply list_elem_of_fmap_2.
Qed.

Lemma titled_fragmentations_attrs db :
  NoDup (id <$> record db) →
  (titled_fragmentations db).*2 ≡ₚ
  (attrs ∘ cols) <$> filter (λ f, record_id (cols f) ∈ id <$> record db) (fragmentation db).
Proof.
  intros Hnd.
  rewrite <- (join_filters id (record_id ∘ cols) (attrs ∘ cols) _ _ Hnd).
  unfold titled_fragmentations, owned. rewrite fmap_bind_list.
  erewrite bind_ext_in; [reflexivity|]. intros r _. simpl.
  rewrite fmap_bind_list, bind_fmap_list.
  apply bind_ext_in. intros f _. simpl. by destruct (decide _).
Qed.

Section orphans.
Variable ddl : index_ddl.
Variable repr : pyval → string.

(** X16.  A fragmentation whose [record_id] is the identifier of no
    record of its input is not copied: for inputs with unique record
    identifiers and unique titles, the fragmentations of the output of a
    run that returns are, attribute for attribute, those fragmentations
    of the inputs that refer to a record of their input, each once. *)
Theorem orphan_fragmentations_dropped w fns o f' dbs :
  output_path o ∉ fns →
  run ddl repr w fns o = (f', inr ()) →
  inputs_at w fns dbs →
  Forall (λ db, NoDup (id <$> record db) ∧ NoDup (record_titles db)) dbs →
  ∃ out,
    files (env f') !! output_path o = Some (Fragdb out) ∧
    (attrs ∘ cols) <$> fragmentation out ≡ₚ
    dbs ≫= λ db, (attrs ∘ cols) <$>
                 filter (λ f, record_id (cols f) ∈ id <$> record db) (fragmentation db).
Proof.
  intros Hout Hrun Hdbs Hnds.
  assert (NoDup (dbs ≫= record_titles)) as Htitles.
  { apply (run_inr_titles ddl repr w fns o f' dbs Hout Hrun Hdbs).
    eapply Forall_impl; [exact Hnds|]. by intros db [_ ?]. }
  destruct (run_inr ddl repr w fns o f' Hout Hrun)
    as (fn & old_db & dbs' & _ & Hdbs' & -> & _).
  rewrite <- (inputs_at_inj _ _ _ _ Hdbs Hdbs').
  eexists. split; [apply final_frame_output|].
  set (out := merge_all (options old_db) dbs).
  destruct (merge_all_well_keyed (options old_db) dbs) as [Hnd Hfk]. fold out in Hnd, Hfk.
  transitivity ((titled_fragmentations out).*2).
  { rewrite (titled_fragmentations_attrs out Hnd).
    rewrite filter_all; [done|]. intros f Hf. by apply Hfk. }
  unfold out. rewrite merge_all_titled_fragmentations by done.
  rewrite fmap_bind_list. clear -Hnds.
  induction Hnds as [|db dbs [Hnd _] _ IH]; [done|].
  rewrite !bind_cons. by rewrite IH, titled_fragmentations_attrs.
Qed.

End orphans.

(** ** Constraint failures during the copy *)

Lemma unique_ok_false keys : ¬ NoDup keys → unique_ok true keys = false.
Proof. intros Hnd. unfold unique_ok. simpl. by apply bool_decide_eq_false. Qed.

Lemma duplicate_titles_disjoint order out old_db :
  (∀ t, t ∈ record_titles old_db → t ∉ record_titles out) →
  in_order order (duplicate_titles (record old_db) (record out)) = [].
Proof.
  intros Hdisj. apply in_order_nil.
  destruct (duplicate_titles _ _) as [|t ts] eqn:Hdup; [done|].
  assert (t ∈ duplicate_titles (record old_db) (record out)) as Hin by (rewrite Hdup; left).
  apply elem_of_duplicate_titles in Hin as [Hold Hnew]. by destruct (Hdisj t).
Qed.

Section constraint_failures.
Variable ddl : index_ddl.
Variable repr : pyval → string.

(** The run on one more input, when this input has the options of the
    first and can be attached. *)
Lemma run_next_input w o pre fn post f1 db out1 :
  output_path o ∉ pre ++ fn :: post →
  run ddl repr w pre o = (f1, inr ()) →
  files (env f1) !! output_path o = Some (Fragdb out1) →
  files w !! fn = Some (Fragdb db) →
  dict_eqb (to_dict (options db)) (to_dict (options out1)) = true →
  ∃ fa A,
    run ddl repr w (pre ++ fn :: post) o =
    let '(out2, r) :=
      match copy_outcome ddl repr fn (attach_error w fn) (select_order w) out1 db with
      | (out', inr _) => files_outcome ddl repr w fa (options A) post out'
      | (out', inl e) => (out', inl e)
      end in
    (final_frame repr w o fa (length (pre ++ fn :: post)) A out2 r, r).
Proof.
  intros Hout Hrun1 Hout1 Hfn Hopts.
  assert (output_path o ∉ pre) as Hpre.
  { intros Hin. apply Hout, elem_of_app. by left. }
  destruct (run_inr ddl repr w pre o f1 Hpre Hrun1) as (fa & A & dbs & _ & _ & Hf1 & _).
  destruct (run_continues ddl repr w o pre (fn :: post) f1 Hout Hrun1)
    as (fa' & A' & out1' & _ & _ & Hf1' & Hrun).
  assert (out1' = out1) as ->.
  { rewrite Hf1', final_frame_output in Hout1. by injection Hout1. }
  assert (options out1 = options A') as Hopt1.
  { rewrite Hf1 in Hf1'. injection Hf1' as _ <- <-. apply merge_all_options. }
  exists fa', A'. rewrite Hrun. cbn [files_outcome]. unfold file_outcome.
  rewrite Hfn. rewrite <- Hopt1.
  by rewrite (proj2 (check_options_mismatch_inr repr fn (options db) fa' (options out1)) Hopts).
Qed.

(** X17.  Where the index definitions declare [error_record.title]
    unique, an input that passes the three checks but whose error record
    titles, together with those already in the output, repeat a title
    ends the run with the [IntegrityError] of sqlite3, which no handler
    of [fragdb_merge] turns into a diagnostic; the output is left as the
    inputs before it made it. *)
Theorem repeated_error_title_raises w o pre fn post f1 db out1 :
  error_record_title_unique ddl = true →
  output_path o ∉ pre ++ fn :: post →
  run ddl repr w pre o = (f1, inr ()) →
  files (env f1) !! output_path o = Some (Fragdb out1) →
  files w !! fn = Some (Fragdb db) →
  dict_eqb (to_dict (options db)) (to_dict (options out1)) = true →
  attach_error w fn = None →
  (∀ t, t ∈ record_titles db → t ∉ record_titles out1) →
  ¬ NoDup (error_record_titles out1 ++ error_record_titles db) →
  ∃ f2,
    run ddl repr w (pre ++ fn :: post) o =
      (f2, inl (IntegrityError "UNIQUE constraint failed: error_record.title")) ∧
    files (env f2) !! output_path o = Some (Fragdb out1).
Proof.
  intros Hddl Hout Hrun1 Hout1 Hfn Hopts Hatt Hdisj Hrep.
  destruct (run_next_input w o pre fn post f1 db out1 Hout Hrun1 Hout1 Hfn Hopts)
    as (fa & A & ->).
  unfold copy_outcome. rewrite Hatt, duplicate_titles_disjoint, Hddl by done.
  change ((er_title ∘ cols) <$> insert_rows (error_record out1) (cols <$> error_record db))
    with (error_record_titles (merged out1 db)).
  rewrite merged_error_record_titles, unique_ok_false by done.
  eexists. split; [done|apply final_frame_output].
Qed.

(** X18.  Where the index definitions declare [record.title] unique, an
    input that passes the three checks and whose error records are
    accepted, but which holds a record title twice, ends the run with
    the [IntegrityError] of sqlite3 in the second statement of the copy.
    The first statement stays: the output has received the error records
    of the failed input, and none of its records or fragmentations. *)
Theorem repeated_record_title_keeps_error_records w o pre fn post f1 db out1 :
  record_title_unique ddl = true →
  output_path o ∉ pre ++ fn :: post →
  run ddl repr w pre o = (f1, inr ()) →
  files (env f1) !! output_path o = Some (Fragdb out1) →
  files w !! fn = Some (Fragdb db) →
  dict_eqb (to_dict (options db)) (to_dict (options out1)) = true →
  attach_error w fn = None →
  (∀ t, t ∈ record_titles db → t ∉ record_titles out1) →
  unique_ok (error_record_title_unique ddl)
    (error_record_titles out1 ++ error_record_titles db) = true →
  ¬ NoDup (record_titles db) →
  ∃ f2 out2,
    run ddl repr w (pre ++ fn :: post) o =
      (f2, inl (IntegrityError "UNIQUE constraint failed: record.title")) ∧
    files (env f2) !! output_path o = Some (Fragdb out2) ∧
    cols <$> error_record out2 = (cols <$> error_record out1) ++ (cols <$> error_record db) ∧
    record out2 = record out1 ∧
    fragmentation out2 = fragmentation out1.
Proof.
  intros Hddl Hout Hrun1 Hout1 Hfn Hopts Hatt Hdisj Herr Hrep.
  destruct (run_next_input w o pre fn post f1 db out1 Hout Hrun1 Hout1 Hfn Hopts)
    as (fa & A & ->).
  unfold copy_outcome. rewrite Hatt, duplicate_titles_disjoint, Hddl by done.
  change ((er_title ∘ cols) <$> insert_rows (error_record out1) (cols <$> error_record db))
    with (error_record_titles (merged out1 db)).
  change ((title ∘ cols) <$> insert_rows (record out1) (cols <$> record db))
    with (record_titles (merged out1 db)).
  rewrite merged_error_record_titles, Herr, merged_record_titles, unique_ok_false.
  2: { intros (_ & _ & Hnd)%NoDup_app. by apply Hrep. }
  eexists _, _. split_and!; [done|apply final_frame_output|..|done|done].
  cbn [error_record set_error_record]. apply cols_insert_rows.
Qed.

End constraint_failures.

(** ** Merging in stages *)

Section stages.
Variable ddl : index_ddl.
Variable repr : pyval → string.

(** X19.  The output of a merge can be merged further, and merging in
    two stages gives what one merge of all the inputs gives: the same
    options, the same error records and records, row for row with their
    identifiers, and the same fragmentations under the titles of their
    records.  The three runs may take place in different directories. *)
Theorem merge_in_stages w1 w2 w3 fns1 m fns2 fns3 o1 o2 o3 f1 f2 f3 dbs1 dbs2 :
  output_path o1 ∉ fns1 →
  output_path o2 ∉ m :: fns2 →
  output_path o3 ∉ fns3 →
  run ddl repr w1 fns1 o1 = (f1, inr ()) →
  run ddl repr w2 (m :: fns2) o2 = (f2, inr ()) →
  run ddl repr w3 fns3 o3 = (f3, inr ()) →
  inputs_at w1 fns1 dbs1 →
  files w2 !! m = files (env f1) !! output_path o1 →
  inputs_at w2 fns2 dbs2 →
  inputs_at w3 fns3 (dbs1 ++ dbs2) →
  Forall (λ db, NoDup (record_titles db)) (dbs1 ++ dbs2) →
  ∃ out2 out3,
    files (env f2) !! output_path o2 = Some (Fragdb out2) ∧
    files (env f3) !! output_path o3 = Some (Fragdb out3) ∧
    options out2 = options out3 ∧
    error_record out2 = error_record out3 ∧
    record out2 = record out3 ∧
    titled_fragmentations out2 = titled_fragmentations out3.
Proof.
  intros Hout1 Hout2 Hout3 Hrun1 Hrun2 Hrun3 Hdbs1 Hm Hdbs2 Hdbs3 Hnds.
  pose proof (run_inr_titles ddl repr w3 fns3 o3 f3 _ Hout3 Hrun3 Hdbs3 Hnds) as Htitles.
  destruct (run_inr ddl repr w1 fns1 o1 f1 Hout1 Hrun1)
    as (fa & A & dbs1' & _ & Hdbs1' & -> & _).
  rewrite (inputs_at_inj _ _ _ _ Hdbs1 Hdbs1') in *. clear Hdbs1.
  rewrite final_frame_output in Hm.
  set (out1 := merge_all (options A) (A :: dbs1')) in *.
  destruct (run_inr ddl repr w2 (m :: fns2) o2 f2 Hout2 Hrun2)
    as (fm & M & dbs2' & _ & Hdbs2' & -> & _).
  apply Forall2_cons in Hdbs2' as [HM Hdbs2'].
  rewrite Hm in HM. injection HM as <-.
  rewrite <- (inputs_at_inj _ _ _ _ Hdbs2 Hdbs2'). clear Hdbs2'.
  destruct (run_inr ddl repr w3 fns3 o3 f3 Hout3 Hrun3)
    as (fb & B & dbs3 & _ & Hdbs3' & -> & _).
  pose proof (inputs_at_inj _ _ _ _ Hdbs3 Hdbs3') as Heq. simpl in Heq.
  injection Heq as <- <-.
  eexists _, _. split_and!; [apply final_frame_output..| | | |].
  - rewrite !merge_all_options. apply merge_all_options.
  - apply rows_eq.
    + destruct (merge_all_consecutive (options out1) (out1 :: dbs2)) as (-> & _).
      destruct (merge_all_consecutive (options A) (A :: dbs1' ++ dbs2)) as (-> & _).
      do 2 f_equal. rewrite <- !(length_fmap cols), !merge_all_error_record.
      rewrite bind_cons. unfold out1. rewrite merge_all_error_record.
      by rewrite app_comm_cons, bind_app.
    + rewrite !merge_all_error_record, bind_cons. unfold out1.
      rewrite merge_all_error_record. by rewrite app_comm_cons, bind_app.
  - apply rows_eq.
    + destruct (merge_all_consecutive (options out1) (out1 :: dbs2)) as (_ & -> & _).
      destruct (merge_all_consecutive (options A) (A :: dbs1' ++ dbs2)) as (_ & -> & _).
      do 2 f_equal. rewrite <- !(length_fmap cols), !merge_all_record.
      rewrite bind_cons. unfold out1. rewrite merge_all_record.
      by rewrite app_comm_cons, bind_app.
    + rewrite !merge_all_record, bind_cons. unfold out1.
      rewrite merge_all_record. by rewrite app_comm_cons, bind_app.
  - rewrite bind_app in Htitles.
    rewrite !merge_all_titled_fragmentations.
    + rewrite bind_cons. unfold out1. rewrite merge_all_titled_fragmentations.
      * by rewrite (app_comm_cons dbs1' dbs2 A), bind_app.
      * by apply NoDup_app in Htitles as (? & _).
    + by rewrite (app_comm_cons dbs1' dbs2 A), bind_app.
    + rewrite bind_cons. unfold out1. by rewrite merge_all_record_titles.
Qed.

End stages.

(** * The further properties on the example databases *)

Lemma invalid_first_input_leaves_files_witness :
  let plain := run (IndexDdl true true) ex_repr ex_disk ["plain.sqlite"; "input1.fragdb"] None in
  let missing := run (IndexDdl true true) ex_repr ex_disk ["missing.fragdb"] None in
  plain.2 = inl (SystemExit ["Cannot open 'plain.sqlite': no such table: options"]) ∧
  env plain.1 = ex_disk ∧
  missing.2 = inl (FileNotFoundError "missing.fragdb") ∧
  env missing.1 = ex_disk.
Proof.
  destruct (invalid_first_input_leaves_files (IndexDdl true true) ex_repr ex_disk
              "plain.sqlite" ["input1.fragdb"] None)
    as (f1 & e1 & Hrun1 & Hvalue & _ & Henv1 & _).
  { intros db. vm_compute. discriminate. }
  destruct (invalid_first_input_leaves_files (IndexDdl true true) ex_repr ex_disk
              "missing.fragdb" [] None)
    as (f2 & e2 & Hrun2 & _ & Hother & Henv2 & _).
  { intros db. vm_compute. discriminate. }
  cbv zeta. rewrite Hrun1, Hrun2. cbn [fst snd].
  rewrite (Hvalue _ eq_refl), Hother; [done|]. intros err. vm_compute. discriminate.
Defined.

Lemma unwritable_output_loses_old_file_witness :
  ∃ f',
    run (IndexDdl true true) ex_repr ex_disk ["input1.fragdb"] (Some "readonly.fragdb") =
      (f', inl (SystemExit ["Error trying to open " +:+ ex_repr (PyStr "readonly.fragdb") +:+
                            " for writing: " +:+ "unable to open database file"])) ∧
    files (env f') !! "readonly.fragdb" = None ∧
    (∀ p, p ≠ "readonly.fragdb" → files (env f') !! p = files ex_disk !! p).
Proof.
  apply (unwritable_output_loses_old_file (IndexDdl true true) ex_repr ex_disk
           "input1.fragdb" [] (Some "readonly.fragdb") ex_input1).
  - vm_compute. reflexivity.
  - vm_compute. discriminate.
  - reflexivity.
Defined.

Lemma directory_output_not_handled_witness :
  ∃ f',
    run (IndexDdl true true) ex_repr ex_disk ["input1.fragdb"] (Some "results") =
      (f', inl (IsADirectoryError "results")) ∧
    env f' = ex_disk ∧
    output_c f' = None.
Proof.
  apply (directory_output_not_handled (IndexDdl true true) ex_repr ex_disk
           "input1.fragdb" [] (Some "results") ex_input1).
  - vm_compute. reflexivity.
  - vm_compute. reflexivity.
Defined.

Lemma invalid_later_input_witness :
  let first := run (IndexDdl true true) ex_repr ex_disk ["input1.fragdb"] None in
  let plain := run (IndexDdl true true) ex_repr ex_disk
                 (["input1.fragdb"] ++ "plain.sqlite" :: ["input2.fragdb"]) None in
  let missing := run (IndexDdl true true) ex_repr ex_disk
                   (["input1.fragdb"] ++ "missing.fragdb" :: ["input2.fragdb"]) None in
  plain.2 = inl (SystemExit ["Cannot open 'plain.sqlite': no such table: options"]) ∧
  files (env plain.1) !! "merged.fragdb" = files (env first.1) !! "merged.fragdb" ∧
  missing.2 = inl (FileNotFoundError "missing.fragdb") ∧
  files (env missing.1) !! "merged.fragdb" = files (env first.1) !! "merged.fragdb".
Proof.
  intros first plain missing.
  destruct (invalid_later_input (IndexDdl true true) ex_repr ex_disk None
              ["input1.fragdb"] "plain.sqlite" ["input2.fragdb"] first.1)
    as (f1 & e1 & Hrun1 & Hvalue & _ & Hout1).
  { apply (bool_decide_unpack _). vm_compute. exact I. }
  { vm_compute. reflexivity. }
  { intros db. vm_compute. discriminate. }
  destruct (invalid_later_input (IndexDdl true true) ex_repr ex_disk None
              ["input1.fragdb"] "missing.fragdb" ["input2.fragdb"] first.1)
    as (f2 & e2 & Hrun2 & _ & Hother & Hout2).
  { apply (bool_decide_unpack _). vm_compute. exact I. }
  { vm_compute. reflexivity. }
  { intros db. vm_compute. discriminate. }
  unfold plain, missing. rewrite Hrun1, Hrun2. cbn [fst snd].
  rewrite (Hvalue _ eq_refl), Hother; [done|]. intros err. vm_compute. discriminate.
Defined.

Lemma attach_failure_witness :
  ∃ f2,
    run (IndexDdl true true) ex_repr ex_disk
      (["input1.fragdb"] ++ "busy.fragdb" :: ["orphan.fragdb"]) None =
      (f2, inl (SystemExit ["Cannot attach " +:+ ex_repr (PyStr "busy.fragdb") +:+
                            " using sqlite3: " +:+ "database is locked"])) ∧
    files (env f2) !! "merged.fragdb" =
    files (env (run (IndexDdl true true) ex_repr ex_disk ["input1.fragdb"] None).1)
      !! "merged.fragdb".
Proof.
  apply (attach_failure (IndexDdl true true) ex_repr ex_disk None
           ["input1.fragdb"] "busy.fragdb" ["orphan.fragdb"] "input1.fragdb"
           ex_input1 ex_input2).
  - apply (bool_decide_unpack _). vm_compute. exact I.
  - vm_compute. reflexivity.
  - reflexivity.
  - vm_compute. reflexivity.
  - vm_compute. reflexivity.
  - reflexivity.
  - reflexivity.
Defined.

Lemma failed_run_reports_no_completion_witness :
  let f' := (run (IndexDdl true true) ex_repr ex_world
               ["input1.fragdb"; "shard.fragdb"] None).1 in
  reported f' = [] ∨ reported f' = notice ex_repr None.
Proof.
  eapply (failed_run_reports_no_completion (IndexDdl true true) ex_repr ex_world
            ["input1.fragdb"; "shard.fragdb"] None).
  - apply (bool_decide_unpack _). vm_compute. exact I.
  - vm_compute. reflexivity.
Defined.

Lemma inputs_never_modified_witness :
  files (env (run (IndexDdl true true) ex_repr ex_world
                ["input1.fragdb"; "input2.fragdb"] None).1) !! "input1.fragdb" =
  files ex_world !! "input1.fragdb".
Proof.
  eapply (inputs_never_modified (IndexDdl true true) ex_repr ex_world
            ["input1.fragdb"; "input2.fragdb"] None).
  - apply (bool_decide_unpack _). vm_compute. exact I.
  - vm_compute. reflexivity.
  - discriminate.
Defined.

Lemma default_output_name_witness :
  run (IndexDdl true true) ex_repr ex_world ["input1.fragdb"; "input2.fragdb"] None =
  (let f := (run (IndexDdl true true) ex_repr ex_world
               ["input1.fragdb"; "input2.fragdb"] (Some "merged.fragdb")).1 in
   Frame (first f) (output_c f) (num f) (env f)
     (("No --output file name specified. Using " +:+ ex_repr (PyStr "merged.fragdb") +:+ ".")
        :: reported f), inr ()).
Proof.
  apply (default_output_name (IndexDdl true true) ex_repr ex_world
           "input1.fragdb" ["input2.fragdb"]).
  - apply (bool_decide_unpack _). vm_compute. exact I.
  - vm_compute. reflexivity.
Defined.

Lemma options_check_compares_mappings_witness :
  check_options_mismatch ex_repr "other.fragdb" ex_other_options "input1.fragdb" ex_options
    = inr () ↔
  ∀ k, dict_get k (to_dict ex_other_options) = dict_get k (to_dict ex_options).
Proof.
  apply (options_check_compares_mappings ex_repr "other.fragdb" ex_other_options
           "input1.fragdb" ex_options).
  - apply (bool_decide_unpack _). vm_compute. exact I.
  - apply (bool_decide_unpack _). vm_compute. exact I.
Defined.

Lemma options_check_missing_field_witness :
  check_options_mismatch ex_repr "input1.fragdb" ex_options "old.fragdb" ex_old_options =
  inl (KeyError "salt_remover").
Proof.
  apply (options_check_missing_field ex_repr "input1.fragdb" ex_options "old.fragdb"
           ex_old_options ["max_heavies"; "num_cuts"; "method"] "salt_remover" []).
  - reflexivity.
  - intros k' Hk'. apply list_elem_of_In in Hk'. simpl in Hk'.
    destruct Hk' as [<-|[<-|[<-|[]]]]; vm_compute; eexists; reflexivity.
  - reflexivity.
Defined.

Lemma options_check_lines_in_field_order_witness :
  check_options_mismatch ex_repr "other.fragdb" ex_other_options "input1.fragdb" ex_options =
  inl (SystemExit
    (("Cannot merge. The options in " +:+ ex_repr (PyStr "other.fragdb") +:+
      " differ from " +:+ ex_repr (PyStr "input1.fragdb") +:+ ".") ::
     ((λ k, "  " +:+ k +:+ ": " +:+
            ex_repr (default PyNone (dict_get k (to_dict ex_other_options))) +:+ " != " +:+
            ex_repr (default PyNone (dict_get k (to_dict ex_options))))
      <$> filter (λ k, dict_get k (to_dict ex_other_options) ≠ dict_get k (to_dict ex_options))
                 (dict_keys (to_dict ex_other_options))))).
Proof.
  apply (options_check_lines_in_field_order ex_repr "other.fragdb" ex_other_options
           "input1.fragdb" ex_options).
  - intros k Hk. apply list_elem_of_In in Hk. simpl in Hk.
    destruct Hk as [<-|[<-|[<-|[<-|[]]]]]; vm_compute; eexists; reflexivity.
  - reflexivity.
Defined.

Lemma options_check_extra_fields_unnamed_witness :
  check_options_mismatch ex_repr "old.fragdb" ex_old_options "input1.fragdb" ex_options =
  inl (SystemExit ["Cannot merge. The options in " +:+ ex_repr (PyStr "old.fragdb") +:+
                   " differ from " +:+ ex_repr (PyStr "input1.fragdb") +:+ "."]).
Proof.
  apply (options_check_extra_fields_unnamed ex_repr "old.fragdb" ex_old_options
           "input1.fragdb" ex_options).
  - intros k Hk. apply list_elem_of_In in Hk. simpl in Hk.
    destruct Hk as [<-|[<-|[<-|[]]]]; reflexivity.
  - vm_compute. discriminate.
Defined.

Lemma output_rows_in_input_order_witness :
  let f' := (run (IndexDdl true true) ex_repr ex_world
               ["failed1.fragdb"; "input1.fragdb"; "input2.fragdb"] None).1 in
  ∃ dbs out,
    inputs_at ex_world ["failed1.fragdb"; "input1.fragdb"; "input2.fragdb"] dbs ∧
    files (env f') !! "merged.fragdb" = Some (Fragdb out) ∧
    Some (options out) = options <$> head dbs ∧
    cols <$> error_record out = (dbs ≫= λ db, cols <$> error_record db) ∧
    cols <$> record out = (dbs ≫= λ db, cols <$> record db) ∧
    id <$> error_record out = seqZ 1 (Z.of_nat (length (error_record out))) ∧
    id <$> record out = seqZ 1 (Z.of_nat (length (record out))) ∧
    id <$> fragmentation out = seqZ 1 (Z.of_nat (length (fragmentation out))).
Proof.
  apply (output_rows_in_input_order (IndexDdl true true) ex_repr ex_world
           ["failed1.fragdb"; "input1.fragdb"; "input2.fragdb"] None).
  - apply (bool_decide_unpack _). vm_compute. exact I.
  - vm_compute. reflexivity.
Defined.

Lemma returned_run_shares_no_title_witness : "mol1" ∉ record_titles ex_input2.
Proof.
  eapply (returned_run_shares_no_title (IndexDdl true true) ex_repr ex_world
            ["input1.fragdb"; "input2.fragdb"] None _ [ex_input1; ex_input2]
            0 1 ex_input1 ex_input2 "mol1").
  - apply (bool_decide_unpack _). vm_compute. exact I.
  - vm_compute. reflexivity.
  - repeat constructor.
  - lia.
  - reflexivity.
  - reflexivity.
  - apply (bool_decide_unpack _). vm_compute. exact I.
Defined.

Lemma merged_output_is_valid_witness :
  ∃ out,
    files (env (run (IndexDdl true true) ex_repr ex_world
                  ["input1.fragdb"; "input2.fragdb"] None).1) !! "merged.fragdb"
      = Some (Fragdb out) ∧
    valid_fragdb (IndexDdl true true) out = true.
Proof.
  apply (merged_output_is_valid (IndexDdl true true) ex_repr ex_world
           ["input1.fragdb"; "input2.fragdb"] None _ [ex_input1; ex_input2]).
  - apply (bool_decide_unpack _). vm_compute. exact I.
  - vm_compute. reflexivity.
  - repeat constructor.
  - repeat constructor; apply (bool_decide_unpack _); vm_compute; exact I.
Defined.

Lemma orphan_fragmentations_dropped_witness :
  ∃ out,
    files (env (run (IndexDdl true true) ex_repr ex_disk
                  ["input1.fragdb"; "orphan.fragdb"] (Some "out.fragdb")).1) !! "out.fragdb"
      = Some (Fragdb out) ∧
    (attrs ∘ cols) <$> fragmentation out ≡ₚ
    [ex_input1; ex_orphan] ≫= λ db,
      (attrs ∘ cols) <$>
      filter (λ f, record_id (cols f) ∈ id <$> record db) (fragmentation db).
Proof.
  apply (orphan_fragmentations_dropped (IndexDdl true true) ex_repr ex_disk
           ["input1.fragdb"; "orphan.fragdb"] (Some "out.fragdb") _ [ex_input1; ex_orphan]).
  - apply (bool_decide_unpack _). vm_compute. exact I.
  - vm_compute. reflexivity.
  - repeat constructor.
  - repeat constructor; apply (bool_decide_unpack _); vm_compute; exact I.
Defined.

Lemma repeated_error_title_raises_witness :
  ∃ f2,
    run (IndexDdl true true) ex_repr ex_world
      (["failed1.fragdb"] ++ "failed2.fragdb" :: ["input1.fragdb"]) None =
      (f2, inl (IntegrityError "UNIQUE constraint failed: error_record.title")) ∧
    files (env f2) !! "merged.fragdb" =
    Some (Fragdb (merged (init_fragdb ex_options) ex_failed1)).
Proof.
  eapply (repeated_error_title_raises (IndexDdl true true) ex_repr ex_world None
            ["failed1.fragdb"] "failed2.fragdb" ["input1.fragdb"] _ ex_failed2).
  - reflexivity.
  - apply (bool_decide_unpack _). vm_compute. exact I.
  - vm_compute. reflexivity.
  - vm_compute. reflexivity.
  - vm_compute. reflexivity.
  - reflexivity.
  - reflexivity.
  - intros t Ht. apply list_elem_of_In in Ht. simpl in Ht.
    destruct Ht as [<-|[]]. apply (bool_decide_unpack _). vm_compute. exact I.
  - apply (bool_decide_unpack _). vm_compute. exact I.
Defined.

Lemma repeated_record_title_keeps_error_records_witness :
  ∃ f2 out2,
    run (IndexDdl true true) ex_repr ex_disk
      (["input1.fragdb"] ++ "twice.fragdb" :: ["input2.fragdb"]) None =
      (f2, inl (IntegrityError "UNIQUE constraint failed: record.title")) ∧
    files (env f2) !! "merged.fragdb" = Some (Fragdb out2) ∧
    cols <$> error_record out2 =
      (cols <$> error_record (merged (init_fragdb ex_options) ex_input1)) ++
      (cols <$> error_record ex_twice) ∧
    record out2 = record (merged (init_fragdb ex_options) ex_input1) ∧
    fragmentation out2 = fragmentation (merged (init_fragdb ex_options) ex_input1).
Proof.
  eapply (repeated_record_title_keeps_error_records (IndexDdl true true) ex_repr ex_disk None
            ["input1.fragdb"] "twice.fragdb" ["input2.fragdb"] _ ex_twice).
  - reflexivity.
  - apply (bool_decide_unpack _). vm_compute. exact I.
  - vm_compute. reflexivity.
  - vm_compute. reflexivity.
  - vm_compute. reflexivity.
  - reflexivity.
  - reflexivity.
  - intros t Ht. apply list_elem_of_In in Ht. simpl in Ht.
    destruct Ht as [<-|[<-|[]]]; apply (bool_decide_unpack _); vm_compute; exact I.
  - reflexivity.
  - apply (bool_decide_unpack _). vm_compute. exact I.
Defined.

Lemma merge_in_stages_witness :
  let stage1 := (run (IndexDdl true true) ex_repr ex_world
                   ["input1.fragdb"; "failed1.fragdb"] (Some "stage1.fragdb")).1 in
  let stage2 := (run (IndexDdl true true) ex_repr (env stage1)
                   ["stage1.fragdb"; "input2.fragdb"] None).1 in
  let at_once := (run (IndexDdl true true) ex_repr ex_world
                    ["input1.fragdb"; "failed1.fragdb"; "input2.fragdb"] None).1 in
  ∃ out2 out3,
    files (env stage2) !! "merged.fragdb" = Some (Fragdb out2) ∧
    files (env at_once) !! "merged.fragdb" = Some (Fragdb out3) ∧
    options out2 = options out3 ∧
    error_record out2 = error_record out3 ∧
    record out2 = record out3 ∧
    titled_fragmentations out2 = titled_fragmentations out3.
Proof.
  intros stage1 stage2 at_once.
  apply (merge_in_stages (IndexDdl true true) ex_repr ex_world (env stage1) ex_world
           ["input1.fragdb"; "failed1.fragdb"] "stage1.fragdb" ["input2.fragdb"]
           ["input1.fragdb"; "failed1.fragdb"; "input2.fragdb"]
           (Some "stage1.fragdb") None None stage1 stage2 at_once
           [ex_input1; ex_failed1] [ex_input2]).
  - apply (bool_decide_unpack _). vm_compute. exact I.
  - apply (bool_decide_unpack _). vm_compute. exact I.
  - apply (bool_decide_unpack _). vm_compute. exact I.
  - vm_compute. reflexivity.
  - vm_compute. reflexivity.
  - vm_compute. reflexivity.
  - repeat constructor.
  - reflexivity.
  - constructor; [vm_compute; reflexivity|constructor].
  - repeat constructor.
  - repeat constructor; apply (bool_decide_unpack _); vm_compute; exact I.
Defined.
